(** * producer-consumer: ring buffer and adaptive consumer of [main.c]

    A shallow embedding of the single-producer/single-consumer queue of
    RGB triplets, of the timer-overflow interrupt routine that drains it
    and of the producer's triple loop, followed by the properties proved
    about them.

    Every [uint8_t] object of the program is a [Z] kept in [0, 256); an
    assignment to such an object is written with [wrap8].  Arithmetic that
    C performs after integer promotion (in [int], or in [size_t] for the
    [% NELEMS(queue)] expressions) is exact, since no intermediate value
    leaves [0, 510]. *)

From Stdlib Require Import ZArith List Lia.
From stdpp Require Import base list.
Import ListNotations.

Local Open Scope Z_scope.

(** ** Data model *)

(** [struct _RGB { uint8_t r; uint8_t g; uint8_t b; }] *)
Record RGB : Type := mkRGB { r : Z; g : Z; b : Z }.

(** The value of a static-storage [RGB] before any store, and of
    [RGB rgb = { 0 }]. *)
Definition rgb_zero : RGB := mkRGB 0 0 0.

(** Storing a value into a [uint8_t] object. *)
Definition wrap8 (z : Z) : Z := z mod 256.

(** [NELEMS(queue)] for [volatile RGB queue[128]]. *)
Definition NELEMS_queue : Z := 128.

(** The globals of the program together with the two [static] locals of the
    interrupt routine ([cycle] and [consume_every]). *)
Record State : Type := mkState {
  queue : list RGB;
  head : Z;
  tail : Z;
  enable_consumer : Z;
  consume_every_modifier : Z;
  cycle : Z;
  consume_every : Z
}.

Definition set_queue (q : list RGB) (s : State) : State :=
  mkState q (head s) (tail s) (enable_consumer s)
          (consume_every_modifier s) (cycle s) (consume_every s).

Definition set_head (h : Z) (s : State) : State :=
  mkState (queue s) h (tail s) (enable_consumer s)
          (consume_every_modifier s) (cycle s) (consume_every s).

Definition set_tail (t : Z) (s : State) : State :=
  mkState (queue s) (head s) t (enable_consumer s)
          (consume_every_modifier s) (cycle s) (consume_every s).

Definition set_enable_consumer (e : Z) (s : State) : State :=
  mkState (queue s) (head s) (tail s) e
          (consume_every_modifier s) (cycle s) (consume_every s).

Definition set_consume_every_modifier (m : Z) (s : State) : State :=
  mkState (queue s) (head s) (tail s) (enable_consumer s)
          m (cycle s) (consume_every s).

Definition set_cycle (c : Z) (s : State) : State :=
  mkState (queue s) (head s) (tail s) (enable_consumer s)
          (consume_every_modifier s) c (consume_every s).

Definition set_consume_every (c : Z) (s : State) : State :=
  mkState (queue s) (head s) (tail s) (enable_consumer s)
          (consume_every_modifier s) (cycle s) c.

(** The state at reset: the array is zero-filled, [head = tail = 0],
    [enable_consumer = 0], [consume_every_modifier = 0], [cycle = 0],
    [consume_every = 1]. *)
Definition initial_state : State :=
  mkState (replicate 128 rgb_zero) 0 0 0 0 0 1.

(** [queue[i]] as an rvalue.  An index outside the array is undefined
    behaviour in C; the model reads [rgb_zero] there, and the theorems
    that read a slot assume the cursors are inside the array. *)
Definition slot (s : State) (i : Z) : RGB :=
  default rgb_zero (queue s !! Z.to_nat i).

(** The result of a C comparison, as the [uint8_t] the predicates return. *)
Definition of_bool (c : bool) : Z := if c then 1 else 0.

(** ** Ring buffer *)

(** [return (head == tail);] *)
Definition empty (s : State) : Z :=
  of_bool (head s =? tail s).

(** [return (head == (tail + 1) % NELEMS(queue));] *)
Definition full (s : State) : Z :=
  of_bool (head s =? (tail s + 1) mod NELEMS_queue).

(** [queue[tail] = *rgb; tail = (tail + 1) % NELEMS(queue);]
    A store outside the array is undefined behaviour in C; the list update
    leaves the array as it is there. *)
Definition enqueue (rgb : RGB) (s : State) : State :=
  let s1 := set_queue (<[Z.to_nat (tail s) := rgb]> (queue s)) s in
  set_tail (wrap8 ((tail s1 + 1) mod NELEMS_queue)) s1.

(** [*rgb = queue[head]; head = (head + 1) % NELEMS(queue);]
    The record written through the pointer is returned with the state. *)
Definition dequeue (s : State) : RGB * State :=
  let rgb := slot s (head s) in
  (rgb, set_head (wrap8 ((head s + 1) mod NELEMS_queue)) s).

(** The cursors index the array and every byte-sized object holds a byte. *)
Record wf (s : State) : Prop := mkWf {
  wf_queue : length (queue s) = 128%nat;
  wf_head : 0 <= head s < NELEMS_queue;
  wf_tail : 0 <= tail s < NELEMS_queue;
  wf_enable : 0 <= enable_consumer s < 256;
  wf_modifier : 0 <= consume_every_modifier s < 256;
  wf_cycle : 0 <= cycle s < 256;
  wf_consume_every : 0 <= consume_every s < 256
}.

(** Number of records waiting between [head] and [tail]. *)
Definition count (s : State) : Z := (tail s - head s) mod NELEMS_queue.

(** The records waiting in the buffer, oldest first. *)
Definition contents (s : State) : list RGB :=
  map (fun i : nat => slot s ((head s + Z.of_nat i) mod NELEMS_queue))
      (seq 0 (Z.to_nat (count s))).

(** A client of the buffer that honours the contracts written above
    [enqueue] and [dequeue]. *)
Inductive Op : Type :=
| OpEnqueue (rgb : RGB)
| OpDequeue.

(** Runs the operations in order and collects what [dequeue] returned.
    [None] when an [enqueue] meets [full() != 0] or a [dequeue] meets
    [empty() != 0]. *)
Fixpoint run_ops (ops : list Op) (s : State) : option (list RGB * State) :=
  match ops with
  | [] => Some ([], s)
  | OpEnqueue rgb :: ops' =>
      if full s =? 0 then run_ops ops' (enqueue rgb s) else None
  | OpDequeue :: ops' =>
      if empty s =? 0 then
        let '(rgb, s') := dequeue s in
        match run_ops ops' s' with
        | Some (out, s'') => Some (rgb :: out, s'')
        | None => None
        end
      else None
  end.

(** The records handed to [enqueue] by a list of operations, in order. *)
Definition enqueued (ops : list Op) : list RGB :=
  flat_map (fun o => match o with OpEnqueue rgb => [rgb] | OpDequeue => [] end) ops.

(** ** Rate controller: the timer-overflow interrupt routine *)

(** What the routine hands to [USART_TransmitString]: the text that
    [snprintf] built in [buf].
    - [Consumed rgb p] is the line built from
      [rgb.r], [rgb.g], [rgb.b] and [consume_every + consume_every_modifier];
    - [QueueEmpty c] is the line that reports the new [consume_every]. *)
Inductive Report : Type :=
| Consumed (rgb : RGB) (period : Z)
| QueueEmpty (new_consume_every : Z).

(** [ISR(TIMER0_OVF_vect)].  The routine runs to completion, so one call is
    one function from the state before the tick to the state after it and
    the line sent to the sink, if any.

    [enable_consumer && ++cycle >= ...] does not touch [cycle] when
    [enable_consumer] is 0; [++cycle] stores into a [uint8_t] and yields the
    stored value; the sum on the right is computed in [int]. *)
Definition ISR_TIMER0_OVF (s : State) : State * option Report :=
  if enable_consumer s =? 0 then (s, None)
  else
    let s1 := set_cycle (wrap8 (cycle s + 1)) s in
    if cycle s1 >=? consume_every s1 + consume_every_modifier s1 then
      let s2 := set_cycle 0 s1 in
      if empty s2 =? 0 then
        let '(rgb, s3) := dequeue s2 in
        (s3, Some (Consumed rgb (consume_every s3 + consume_every_modifier s3)))
      else
        let s3 := set_consume_every (wrap8 (consume_every s2 + 1)) s2 in
        let s4 := set_enable_consumer 0 s3 in
        (s4, Some (QueueEmpty (consume_every s4)))
    else (s1, None).

(** [n] consecutive timer ticks with nothing running in between: the state
    reached and what each tick sent, first tick first. *)
Fixpoint run_ticks (n : nat) (s : State) : State * list (option Report) :=
  match n with
  | O => (s, [])
  | S n' =>
      let '(s1, o) := ISR_TIMER0_OVF s in
      let '(s2, os) := run_ticks n' s1 in
      (s2, o :: os)
  end.

Definition state_after (n : nat) (s : State) : State := fst (run_ticks n s).

(** What tick number [k] sent, ticks being numbered from 1. *)
Definition report_at (k : nat) (s : State) : option Report :=
  snd (ISR_TIMER0_OVF (state_after (pred k) s)).

(** Tick number [k] called [dequeue]: that is the branch that sends a
    [Consumed] line. *)
Definition dequeue_at (k : nat) (s : State) : bool :=
  match report_at k s with
  | Some (Consumed _ _) => true
  | _ => false
  end.

(** ** Producer: the loop nest of [main] *)

(** A [do { body } while (cond);] loop whose controlling expression has a
    side effect.  [None] when the fuel runs out or the body does. *)
Fixpoint do_while {St : Type} (fuel : nat) (body : St -> option St)
    (cond : St -> St * bool) (st : St) : option St :=
  match fuel with
  | O => None
  | S fuel' =>
      match body st with
      | None => None
      | Some st1 =>
          let '(st2, c) := cond st1 in
          if c then do_while fuel' body cond st2 else Some st2
      end
  end.

Section ProducerLoop.
(** Whatever the loop body acts on, and the body itself: the statements
    between the innermost [do] and its [while], which receive the current
    triplet. *)
Context {W : Type} (produce : RGB -> W -> W).

(** [++rgb.b != 0] *)
Definition incr_b (st : RGB * W) : (RGB * W) * bool :=
  let rgb := fst st in
  let rgb' := mkRGB (r rgb) (g rgb) (wrap8 (b rgb + 1)) in
  ((rgb', snd st), negb (b rgb' =? 0)).

(** [++rgb.g != 0] *)
Definition incr_g (st : RGB * W) : (RGB * W) * bool :=
  let rgb := fst st in
  let rgb' := mkRGB (r rgb) (wrap8 (g rgb + 1)) (b rgb) in
  ((rgb', snd st), negb (g rgb' =? 0)).

(** [++rgb.r != 0] *)
Definition incr_r (st : RGB * W) : (RGB * W) * bool :=
  let rgb := fst st in
  let rgb' := mkRGB (wrap8 (r rgb + 1)) (g rgb) (b rgb) in
  ((rgb', snd st), negb (r rgb' =? 0)).

Definition loop_b (fuel : nat) : RGB * W -> option (RGB * W) :=
  do_while fuel (fun st => Some (fst st, produce (fst st) (snd st))) incr_b.

Definition loop_g (fuel : nat) : RGB * W -> option (RGB * W) :=
  do_while fuel (loop_b fuel) incr_g.

Definition loop_r (fuel : nat) : RGB * W -> option (RGB * W) :=
  do_while fuel (loop_g fuel) incr_r.

(** One turn of [for (;;)]: [RGB rgb = { 0 };] and the three loops. *)
Definition producer_pass (fuel : nat) (w : W) : option (RGB * W) :=
  loop_r fuel (rgb_zero, w).

(** The body applied to each triplet of a list in turn. *)
Definition feed (cs : list RGB) (w : W) : W :=
  foldl (fun w c => produce c w) w cs.
End ProducerLoop.

(** The body seen from outside: the triplet it passes to [enqueue] is
    appended to the record of what has been enqueued so far. *)
Definition log_enqueue (rgb : RGB) (tr : list RGB) : list RGB := tr ++ [rgb].

(** The integers [a, a+1, ..., a+n-1]. *)
Definition zrange (a : Z) (n : nat) : list Z :=
  map (fun i : nat => a + Z.of_nat i) (seq 0 n).

(** All triplets, [b] running fastest and [r] slowest. *)
Definition odometer : list RGB :=
  flat_map (fun r0 =>
    flat_map (fun g0 => map (mkRGB r0 g0) (zrange 0 256)) (zrange 0 256))
    (zrange 0 256).

(** The triplet that stands at position [n] of an odometer with three
    base-256 digits. *)
Definition rgb_of_index (n : Z) : RGB :=
  mkRGB (n / 65536) ((n / 256) mod 256) (n mod 256).

(** A triplet whose fields are bytes. *)
Definition rgb_valid (c : RGB) : Prop :=
  0 <= r c < 256 /\ 0 <= g c < 256 /\ 0 <= b c < 256.

(** The next reading of an odometer with three base-256 digits: the last
    digit advances; a digit that was 255 goes to 0 and advances the digit
    before it. *)
Definition odometer_succ (c : RGB) : RGB :=
  if b c <? 255 then mkRGB (r c) (g c) (b c + 1)
  else if g c <? 255 then mkRGB (r c) (g c + 1) 0
  else mkRGB (wrap8 (r c + 1)) 0 0.

(** ** Main context seen from the interrupt: atomic steps *)

(** The steps of [main] that touch the shared state, and the tick.
    - [EvSpin]: one turn of [while (full()) enable_consumer = 1;];
    - [EvEnqueue rgb]: leaving that loop and calling [enqueue];
    - [EvTick]: the interrupt routine.  *)
Inductive Event : Type :=
| EvSpin
| EvEnqueue (rgb : RGB)
| EvTick.

Definition step (e : Event) (s : State) : option State :=
  match e with
  | EvSpin => if full s =? 0 then None else Some (set_enable_consumer 1 s)
  | EvEnqueue rgb => if full s =? 0 then Some (enqueue rgb s) else None
  | EvTick => Some (fst (ISR_TIMER0_OVF s))
  end.

Fixpoint run_events (es : list Event) (s : State) : option State :=
  match es with
  | [] => Some s
  | e :: es' =>
      match step e s with
      | Some s' => run_events es' s'
      | None => None
      end
  end.

(** ** Sample inputs *)

(** A short client run on the buffer at reset, what it gets back and the
    state it ends in. *)
Definition sample_ops : list Op :=
  [OpEnqueue (mkRGB 1 2 3); OpEnqueue (mkRGB 4 5 6); OpDequeue;
   OpEnqueue (mkRGB 7 8 9); OpDequeue; OpDequeue].

Definition sample_out : list RGB := [mkRGB 1 2 3; mkRGB 4 5 6; mkRGB 7 8 9].

Definition sample_final : State :=
  snd (default ([], initial_state) (run_ops sample_ops initial_state)).

(** The buffer at reset with one record in it. *)
Definition one_waiting : State := enqueue (mkRGB 1 2 3) initial_state.

(** The consumer enabled with one record waiting and a period of three
    ticks ([consume_every = 1], [consume_every_modifier = 2]). *)
Definition period_3 : State :=
  set_consume_every_modifier 2 (set_enable_consumer 1 one_waiting).

(** The consumer enabled with one record waiting, [consume_every = 1] and
    [consume_every_modifier = 255]: the sum is 256. *)
Definition period_256 : State :=
  set_consume_every_modifier 255 (set_enable_consumer 1 one_waiting).

(** The consumer enabled with one record waiting and [consume_every = 0],
    the value [consume_every] has after wrapping: the sum is 0. *)
Definition period_0 : State :=
  set_consume_every 0 (set_enable_consumer 1 one_waiting).

(** The consumer enabled on an empty buffer with [consume_every = 255] and
    [cycle = 254]: the next tick is a drain attempt. *)
Definition underrun_at_255 : State :=
  mkState (replicate 128 rgb_zero) 0 0 1 0 254 255.

(** The consumer enabled on an empty buffer at reset values otherwise: the
    first tick is a drain attempt. *)
Definition underrun_at_1 : State := set_enable_consumer 1 initial_state.

(** ** Statements about runs of ticks *)

(** [consume_every + consume_every_modifier], the right-hand side of the
    comparison in the interrupt routine, in exact arithmetic. *)
Definition threshold (s : State) : Z :=
  consume_every s + consume_every_modifier s.

(** From [s], no tick numbered below the threshold dequeues, and the tick
    whose number is the threshold dequeues exactly one record and leaves
    [cycle] at 0. *)
Definition drains_on_schedule (s : State) : Prop :=
  (forall k : nat, (1 <= k)%nat -> Z.of_nat k < threshold s ->
     dequeue_at k s = false /\ head (state_after k s) = head s) /\
  (dequeue_at (Z.to_nat (threshold s)) s = true /\
   head (state_after (Z.to_nat (threshold s)) s)
     = (head s + 1) mod NELEMS_queue /\
   cycle (state_after (Z.to_nat (threshold s)) s) = 0).

(** ** A schedule that calibrates the consumer *)

(** The producer's part of a round: 127 triplets fill the buffer at reset
    or after an underrun, and one turn of the spin loop sees it full. *)
Definition fill_events : list Event :=
  map EvEnqueue (replicate 127 rgb_zero) ++ [EvSpin].

(** One round with period [c] and no modifier: the producer fills the
    buffer and stalls, the consumer takes the 127 records, one every [c]
    ticks, and [c] ticks later finds the buffer empty. *)
Definition round_events (c : Z) : list Event :=
  fill_events ++ replicate (128 * Z.to_nat c) EvTick.

(** [n] rounds in a row, the first with period [c]. *)
Fixpoint calibration_events (n : nat) (c : Z) : list Event :=
  match n with
  | O => []
  | S n' => round_events c ++ calibration_events n' (c + 1)
  end.

(** From reset: 254 rounds, then a round stopped one tick before its
    underrun. *)
Definition events_to_255 : list Event :=
  calibration_events 254 1 ++ fill_events
    ++ replicate (127 * 255 + 254) EvTick.

(** ** What reaches the sink during a run of events *)

(** The line a step sends: only the tick sends one. *)
Definition reports_of (e : Event) (s : State) : list Report :=
  match e with
  | EvTick =>
      match snd (ISR_TIMER0_OVF s) with
      | Some rp => [rp]
      | None => []
      end
  | _ => []
  end.

(** [run_events] together with the lines sent, first line first. *)
Fixpoint run_events_log (es : list Event) (s : State)
    : option (State * list Report) :=
  match es with
  | [] => Some (s, [])
  | e :: es' =>
      match step e s with
      | Some s1 =>
          match run_events_log es' s1 with
          | Some (s2, rs) => Some (s2, reports_of e s ++ rs)
          | None => None
          end
      | None => None
      end
  end.

(** The lines among what a run of ticks sent. *)
Definition reports_sent (os : list (option Report)) : list Report :=
  flat_map (fun o => match o with Some rp => [rp] | None => [] end) os.

(** The triplets named in the [Consumed] lines, in the order sent. *)
Definition consumed_of (rs : list Report) : list RGB :=
  flat_map (fun rp => match rp with
                      | Consumed rgb _ => [rgb]
                      | QueueEmpty _ => []
                      end) rs.

(** The triplets [main] passed to [enqueue], in order. *)
Definition produced_of (es : list Event) : list RGB :=
  flat_map (fun e => match e with EvEnqueue rgb => [rgb] | _ => [] end) es.

(** A full buffer at reset values otherwise: [head = 0], [tail = 127]. *)
Definition full_buffer : State :=
  mkState (replicate 128 (mkRGB 7 7 7)) 0 127 0 0 0 1.

(** The same with the consumer enabled. *)
Definition full_enabled : State := set_enable_consumer 1 full_buffer.

(** The same with [consume_every_modifier = 255]: the threshold is 256. *)
Definition full_stuck : State := set_consume_every_modifier 255 full_enabled.

(** A short interleaving started with the consumer enabled, one record
    waiting and a period of three ticks, and what it gives. *)
Definition sample_events : list Event :=
  [EvTick; EvTick; EvEnqueue (mkRGB 4 5 6); EvTick; EvTick].

Definition sample_events_result : State * list Report :=
  default (period_3, []) (run_events_log sample_events period_3).

(** ** Serial output *)

(** [USART_Transmit]: the wait on [UDRE0] is the peripheral's business; the
    store to [UDR0] puts [data] on the line, modelled as the list of bytes
    sent so far. *)
Definition USART_Transmit (data : Z) (line : list Z) : list Z :=
  line ++ [data].

(** [while ( *data) USART_Transmit( *data++);] on the bytes found from
    [data] on.  Running off the end of the object without meeting a zero
    byte is undefined behaviour in C; the model stops there. *)
Fixpoint USART_TransmitString (data : list Z) (line : list Z) : list Z :=
  match data with
  | [] => line
  | c :: data' =>
      if c =? 0 then line
      else USART_TransmitString data' (USART_Transmit c line)
  end.

(** ** The producer's delay *)

(** [uint8_t delay_in_ms = random() % 16;] for the [long] that [random()]
    returned: C's [%] truncates towards zero. *)
Definition delay_of_random (rnd : Z) : Z := wrap8 (Z.rem rnd 16).

(** [while (delay_in_ms--) _delay_ms(1);] : the final value of
    [delay_in_ms] and the number of calls of [_delay_ms(1)] added to
    [calls]; [None] when the fuel runs out. *)
Fixpoint delay_loop (fuel : nat) (delay_in_ms : Z) (calls : Z)
    : option (Z * Z) :=
  match fuel with
  | O => None
  | S fuel' =>
      let old := delay_in_ms in
      let delay_in_ms' := wrap8 (delay_in_ms - 1) in
      if old =? 0 then Some (delay_in_ms', calls)
      else delay_loop fuel' delay_in_ms' (calls + 1)
  end.

(** ** Main and the interrupt routine on the serial line *)


(** What can happen next while [main] is in a call of
    [USART_TransmitString]:
    - [SinkMainStep]: [main] makes one turn of the loop of
      [USART_TransmitString] (the test of [*data] and, if it is not zero,
      one [USART_Transmit]);
    - [SinkIrq buf]: the timer interrupt is taken; the routine runs to its
      end and its [USART_TransmitString(buf)] sends a whole line. *)
Inductive SinkEvent : Type :=
| SinkMainStep
| SinkIrq (buf : list Z).

(** One turn of [while ( *data) USART_Transmit( *data++);] in [main], on the
    bytes still to read and the line so far.  Once the zero byte has been
    read the call is over and [main] sends nothing more. *)
Definition main_transmit_step (st : list Z * list Z) : list Z * list Z :=
  match fst st with
  | [] => st
  | c :: data' => if c =? 0 then st else (data', USART_Transmit c (snd st))
  end.

(** [main] still has a byte to send. *)
Definition call_active (st : list Z * list Z) : bool :=
  match fst st with
  | [] => false
  | c :: _ => negb (c =? 0)
  end.

(** [guarded] says that the timer interrupt cannot be taken while [main]
    is inside the call.  That is so for the call [main] makes before
    [Timer0_Init] enables the interrupt with [sei()], and for a call inside
    [ATOMIC_BLOCK] as in the block commented out in the producer; it is not
    so for a bare call once the timer runs, since [USART_TransmitString]
    itself disables nothing.  A schedule that takes the interrupt where it
    cannot be taken is refused. *)
Definition sink_step (guarded : bool) (e : SinkEvent)
    (st : list Z * list Z) : option (list Z * list Z) :=
  match e with
  | SinkMainStep => Some (main_transmit_step st)
  | SinkIrq buf =>
      if guarded && call_active st then None
      else Some (fst st, USART_TransmitString buf (snd st))
  end.

Fixpoint run_sink (guarded : bool) (sched : list SinkEvent)
    (st : list Z * list Z) : option (list Z * list Z) :=
  match sched with
  | [] => Some st
  | e :: sched' =>
      match sink_step guarded e st with
      | Some st1 => run_sink guarded sched' st1
      | None => None
      end
  end.







(** A bare call on [AB] with the interrupt routine sending [X] between
    the two bytes. *)
Definition split_schedule : list SinkEvent :=
  [SinkMainStep; SinkIrq [88; 0]; SinkMainStep; SinkMainStep].

(** ** More sample states *)

(** The buffer filled from reset by 127 enqueues, before the producer has
    looked at [full()]. *)
Definition filled_at_reset : State :=
  default initial_state
    (run_events (map EvEnqueue (replicate 127 rgb_zero)) initial_state).

(** [period_3] with [cycle] at 200, as after [consume_every_modifier] was
    lowered from above 200 to 2. *)
Definition lowered_modifier : State := set_cycle 200 period_3.

(** * Properties *)

(** ** Ring buffer *)

Section RingBuffer.

Lemma of_bool_0 (c : bool) : of_bool c = 0 <-> c = false.
Proof. destruct c; simpl; split; intros; congruence || lia. Qed.

Lemma of_bool_1 (c : bool) : of_bool c = 1 <-> c = true.
Proof. destruct c; simpl; split; intros; congruence || lia. Qed.

Lemma empty_0 (s : State) : empty s = 0 <-> head s <> tail s.
Proof. unfold empty. rewrite of_bool_0. apply Z.eqb_neq. Qed.

Lemma empty_1 (s : State) : empty s = 1 <-> head s = tail s.
Proof. unfold empty. rewrite of_bool_1. apply Z.eqb_eq. Qed.

Lemma full_0 (s : State) :
  full s = 0 <-> head s <> (tail s + 1) mod NELEMS_queue.
Proof. unfold full. rewrite of_bool_0. apply Z.eqb_neq. Qed.

Lemma full_1 (s : State) :
  full s = 1 <-> head s = (tail s + 1) mod NELEMS_queue.
Proof. unfold full. rewrite of_bool_1. apply Z.eqb_eq. Qed.

(** Neither predicate depends on the cursors being in range for this. *)
Lemma full_empty_exclusive (s : State) : ~ (full s = 1 /\ empty s = 1).
Proof.
  rewrite full_1, empty_1. unfold NELEMS_queue. intros [Hf He].
  rewrite He in Hf. clear He.
  pose proof (Z.mod_pos_bound (tail s + 1) 128 ltac:(lia)) as Hb.
  destruct (Z.eq_dec (tail s) 127) as [E|E].
  - rewrite E in Hf. vm_compute in Hf. discriminate.
  - rewrite Z.mod_small in Hf by lia. lia.
Qed.

Lemma enqueue_wf (rgb : RGB) (s : State) : wf s -> wf (enqueue rgb s).
Proof.
  intros [Hq Hh Ht He Hm Hc Hce]. unfold NELEMS_queue in *.
  split; unfold enqueue, wrap8, NELEMS_queue; simpl; try assumption.
  - rewrite length_insert. exact Hq.
  - pose proof (Z.mod_pos_bound (tail s + 1) 128 ltac:(lia)).
    rewrite Z.mod_small; lia.
Qed.

Lemma dequeue_wf (s : State) : wf s -> wf (snd (dequeue s)).
Proof.
  intros [Hq Hh Ht He Hm Hc Hce]. unfold NELEMS_queue in *.
  split; unfold dequeue, wrap8, NELEMS_queue; simpl; try assumption.
  pose proof (Z.mod_pos_bound (head s + 1) 128 ltac:(lia)).
  rewrite Z.mod_small; lia.
Qed.

Lemma count_bounds (s : State) : 0 <= count s < 128.
Proof. unfold count, NELEMS_queue. apply Z.mod_pos_bound. lia. Qed.

Lemma count_enqueue (rgb : RGB) (s : State) :
  wf s -> full s = 0 -> count (enqueue rgb s) = count s + 1.
Proof.
  intros [Hq Hh Ht He Hm Hc Hce]. rewrite full_0.
  unfold count, enqueue, wrap8, NELEMS_queue in *. simpl. intros Hf.
  Z.div_mod_to_equations. lia.
Qed.

Lemma count_dequeue (s : State) :
  wf s -> empty s = 0 -> count s = count (snd (dequeue s)) + 1.
Proof.
  intros [Hq Hh Ht He Hm Hc Hce]. rewrite empty_0.
  unfold count, dequeue, wrap8, NELEMS_queue in *. simpl. intros Hf.
  Z.div_mod_to_equations. lia.
Qed.


Lemma count_empty (s : State) : empty s = 1 -> count s = 0.
Proof.
  rewrite empty_1. unfold count. intros ->. rewrite Z.sub_diag. reflexivity.
Qed.

Lemma count_full (s : State) : wf s -> (full s = 1 <-> count s = 127).
Proof.
  intros [Hq Hh Ht He Hm Hc Hce]. rewrite full_1.
  unfold count, NELEMS_queue in *. split; intros H.
  - Z.div_mod_to_equations. lia.
  - Z.div_mod_to_equations. lia.
Qed.

Lemma full_cases (s : State) : full s = 0 \/ full s = 1.
Proof. unfold full. destruct (_ =? _); simpl; auto. Qed.

Lemma contents_empty (s : State) : empty s = 1 -> contents s = [].
Proof. intros H. unfold contents. rewrite (count_empty s H). reflexivity. Qed.

Lemma slot_index (s : State) (i : nat) :
  wf s -> (head s + Z.of_nat i) mod NELEMS_queue = tail s ->
  Z.of_nat i < 128 -> Z.of_nat i = count s.
Proof.
  intros [Hq Hh Ht He Hm Hc Hce] H Hi. unfold count, NELEMS_queue in *.
  Z.div_mod_to_equations. lia.
Qed.

(** [enqueue] on a buffer that is not full appends to what is waiting. *)
Lemma contents_enqueue (rgb : RGB) (s : State) :
  wf s -> full s = 0 -> contents (enqueue rgb s) = contents s ++ [rgb].
Proof.
  intros Hwf Hf. unfold contents.
  rewrite (count_enqueue rgb s Hwf Hf).
  pose proof (count_bounds s) as Hc.
  replace (Z.to_nat (count s + 1)) with (S (Z.to_nat (count s))) by lia.
  rewrite seq_S, map_app. f_equal.
  - apply map_ext_in. intros i Hi. apply in_seq in Hi.
    unfold slot, enqueue. simpl.
    rewrite list_lookup_insert_ne; [reflexivity|].
    intros E. apply Z2Nat.inj in E.
    + symmetry in E. apply slot_index in E; [lia | assumption | lia].
    + destruct Hwf; lia.
    + apply Z.mod_pos_bound. unfold NELEMS_queue. lia.
  - simpl. f_equal. unfold slot, enqueue. simpl.
    replace ((head s + Z.of_nat (Z.to_nat (count s))) mod NELEMS_queue)
      with (tail s).
    + rewrite list_lookup_insert_eq; [reflexivity|].
      destruct Hwf as [Hq Hh Ht _ _ _ _]. unfold NELEMS_queue in *. lia.
    + destruct Hwf as [Hq Hh Ht _ _ _ _].
      rewrite Z2Nat.id by lia. unfold count, NELEMS_queue in *.
      Z.div_mod_to_equations. lia.
Qed.

(** [dequeue] on a buffer that is not empty returns the oldest record and
    leaves the others waiting. *)
Lemma contents_dequeue (s : State) :
  wf s -> empty s = 0 ->
  contents s = fst (dequeue s) :: contents (snd (dequeue s)).
Proof.
  intros Hwf He. unfold contents at 1.
  rewrite (count_dequeue s Hwf He).
  pose proof (count_bounds (snd (dequeue s))) as Hc.
  replace (Z.to_nat (count (snd (dequeue s)) + 1))
    with (S (Z.to_nat (count (snd (dequeue s))))) by lia.
  destruct Hwf as [Hq Hh Ht _ _ _ _]. unfold NELEMS_queue in *.
  simpl seq. rewrite <- seq_shift, map_cons, map_map. f_equal.
  - simpl. unfold NELEMS_queue. rewrite Z.add_0_r, Z.mod_small by lia.
    reflexivity.
  - unfold contents. apply map_ext. intros i.
    unfold slot, dequeue, wrap8, NELEMS_queue. simpl queue. simpl head.
    do 2 f_equal. f_equal. cbn [snd head set_head].
    rewrite Nat2Z.inj_succ. Z.div_mod_to_equations. lia.
Qed.

(** What has come out, followed by what is waiting, is what was waiting
    followed by what has gone in. *)
Lemma run_ops_contents (ops : list Op) :
  forall (s s' : State) (out : list RGB),
    wf s -> run_ops ops s = Some (out, s') ->
    wf s' /\ out ++ contents s' = contents s ++ enqueued ops.
Proof.
  induction ops as [|[rgb|] ops IH]; intros s s' out Hwf Hrun;
    cbn [run_ops] in Hrun.
  - inversion Hrun; subst. split; [assumption|].
    simpl. rewrite app_nil_r. reflexivity.
  - destruct (full s =? 0) eqn:Hf; [|discriminate].
    apply Z.eqb_eq in Hf.
    destruct (IH _ _ _ (enqueue_wf rgb s Hwf) Hrun) as [Hwf' Heq].
    split; [assumption|].
    rewrite Heq, (contents_enqueue rgb s Hwf Hf).
    simpl. rewrite <- app_assoc. reflexivity.
  - destruct (empty s =? 0) eqn:He; [|discriminate].
    apply Z.eqb_eq in He.
    pose proof (contents_dequeue s Hwf He) as Hd.
    pose proof (dequeue_wf s Hwf) as Hwf1.
    destruct (dequeue s) as [rgb s1]. simpl in Hd, Hwf1.
    destruct (run_ops ops s1) as [[out1 s2]|] eqn:Hr; [|discriminate].
    inversion Hrun; subst.
    destruct (IH _ _ _ Hwf1 Hr) as [Hwf' Heq].
    split; [assumption|].
    rewrite Hd. simpl. rewrite Heq. reflexivity.
Qed.

(** Enqueues alone succeed as long as there is room, and each one adds one
    waiting record. *)
Lemma run_ops_enqueues (rgbs : list RGB) :
  forall s : State,
    wf s -> count s + Z.of_nat (length rgbs) <= 127 ->
    exists s', run_ops (map OpEnqueue rgbs) s = Some ([], s') /\
               wf s' /\ count s' = count s + Z.of_nat (length rgbs).
Proof.
  induction rgbs as [|rgb rgbs IH]; intros s Hwf Hlen; simpl in *.
  - exists s. split; [reflexivity|]. split; [assumption | lia].
  - assert (Hf : full s = 0).
    { destruct (full_cases s) as [H|H]; [assumption|].
      apply (count_full s Hwf) in H. lia. }
    rewrite Hf. simpl.
    destruct (IH (enqueue rgb s) (enqueue_wf rgb s Hwf)) as (s' & Hr & Hwf' & Hc).
    + rewrite (count_enqueue rgb s Hwf Hf). lia.
    + exists s'. split; [assumption|]. split; [assumption|].
      rewrite Hc, (count_enqueue rgb s Hwf Hf). lia.
Qed.

Lemma initial_state_wf : wf initial_state.
Proof. split; simpl; unfold NELEMS_queue; first [reflexivity | lia]. Qed.

(** C6: for cursors [head] and [tail] in [0, N), with N = 128 >= 2, [full()]
    and [empty()] do not both return 1. *)
Theorem full_empty_not_both (s : State) :
  2 <= NELEMS_queue ->
  0 <= head s < NELEMS_queue -> 0 <= tail s < NELEMS_queue ->
  ~ (full s = 1 /\ empty s = 1).
Proof. intros _ _ _. apply full_empty_exclusive. Qed.

Lemma full_empty_not_both_witness :
  2 <= NELEMS_queue /\
  0 <= head initial_state < NELEMS_queue /\
  0 <= tail initial_state < NELEMS_queue /\
  ~ (full initial_state = 1 /\ empty initial_state = 1).
Proof.
  assert (H2 : 2 <= NELEMS_queue) by (unfold NELEMS_queue; lia).
  assert (Hh : 0 <= head initial_state < NELEMS_queue)
    by (unfold NELEMS_queue; simpl; lia).
  assert (Ht : 0 <= tail initial_state < NELEMS_queue)
    by (unfold NELEMS_queue; simpl; lia).
  exact (conj H2 (conj Hh (conj Ht
           (full_empty_not_both initial_state H2 Hh Ht)))).
Defined.

(** C1: when every [enqueue] is called with [full() = 0] and every
    [dequeue] with [empty() = 0], starting from an empty buffer, the
    records returned by [dequeue] are the records passed to [enqueue], in
    the same order: what has been returned so far is the front of what
    has been passed, what has not been returned yet is still waiting in the
    buffer in the order it was passed, and once the buffer is empty again
    the two sequences are equal. *)
Theorem fifo_order (ops : list Op) (s s' : State) (out : list RGB) :
  wf s -> empty s = 1 -> run_ops ops s = Some (out, s') ->
  out ++ contents s' = enqueued ops /\
  out = take (length out) (enqueued ops) /\
  contents s' = drop (length out) (enqueued ops) /\
  (empty s' = 1 -> out = enqueued ops).
Proof.
  intros Hwf He Hrun.
  destruct (run_ops_contents ops s s' out Hwf Hrun) as [_ Heq].
  rewrite (contents_empty s He) in Heq. simpl in Heq.
  split; [exact Heq|]. rewrite <- Heq. split; [|split].
  - rewrite take_app_length. reflexivity.
  - rewrite drop_app_length. reflexivity.
  - intros He'. rewrite (contents_empty s' He'), app_nil_r. reflexivity.
Qed.

Lemma fifo_order_witness :
  run_ops sample_ops initial_state = Some (sample_out, sample_final) /\
  sample_out ++ contents sample_final = enqueued sample_ops /\
  sample_out = take (length sample_out) (enqueued sample_ops) /\
  contents sample_final = drop (length sample_out) (enqueued sample_ops) /\
  (empty sample_final = 1 -> sample_out = enqueued sample_ops).
Proof.
  assert (Hrun : run_ops sample_ops initial_state
                 = Some (sample_out, sample_final))
    by (vm_compute; reflexivity).
  split; [exact Hrun|].
  exact (fifo_order sample_ops initial_state sample_final sample_out
           initial_state_wf eq_refl Hrun).
Defined.

(** C4: starting from an empty buffer ([head = tail]) of capacity 128,
    127 consecutive enqueues can be made with [full()] returning 0 before
    each of them, and after the 127th [full()] returns 1. *)
Theorem capacity_is_127 (s : State) (rgbs : list RGB) :
  wf s -> empty s = 1 -> length rgbs = 127%nat ->
  (forall k : nat, (k < 127)%nat ->
     exists sk, run_ops (map OpEnqueue (take k rgbs)) s = Some ([], sk) /\
                full sk = 0) /\
  (exists s', run_ops (map OpEnqueue rgbs) s = Some ([], s') /\ full s' = 1).
Proof.
  intros Hwf He Hlen. pose proof (count_empty s He) as Hc. split.
  - intros k Hk.
    destruct (run_ops_enqueues (take k rgbs) s Hwf) as (sk & Hr & Hwfk & Hck).
    + rewrite length_take. lia.
    + exists sk. split; [exact Hr|].
      destruct (full_cases sk) as [H|H]; [exact H|].
      apply (count_full sk Hwfk) in H.
      rewrite length_take in Hck. lia.
  - destruct (run_ops_enqueues rgbs s Hwf) as (s' & Hr & Hwf' & Hc').
    + lia.
    + exists s'. split; [exact Hr|].
      apply (count_full s' Hwf'). lia.
Qed.

Lemma capacity_is_127_witness :
  wf initial_state /\ empty initial_state = 1 /\
  length (replicate 127 (mkRGB 9 8 7)) = 127%nat /\
  (forall k : nat, (k < 127)%nat ->
     exists sk, run_ops (map OpEnqueue (take k (replicate 127 (mkRGB 9 8 7))))
                        initial_state = Some ([], sk) /\
                full sk = 0) /\
  (exists s', run_ops (map OpEnqueue (replicate 127 (mkRGB 9 8 7)))
                      initial_state = Some ([], s') /\ full s' = 1).
Proof.
  assert (Hl : length (replicate 127 (mkRGB 9 8 7)) = 127%nat) by reflexivity.
  exact (conj initial_state_wf (conj eq_refl (conj Hl
           (capacity_is_127 initial_state (replicate 127 (mkRGB 9 8 7))
              initial_state_wf eq_refl Hl)))).
Defined.

End RingBuffer.

(** ** Rate controller *)

Section RateController.

Lemma wrap8_small (z : Z) : 0 <= z < 256 -> wrap8 z = z.
Proof. intros H. unfold wrap8. apply Z.mod_small. exact H. Qed.

Lemma wrap8_bounds (z : Z) : 0 <= wrap8 z < 256.
Proof. unfold wrap8. apply Z.mod_pos_bound. lia. Qed.

Lemma set_cycle_same (s : State) : set_cycle (cycle s) s = s.
Proof. destruct s. reflexivity. Qed.

Lemma set_cycle_twice (c c' : Z) (s : State) :
  set_cycle c' (set_cycle c s) = set_cycle c' s.
Proof. reflexivity. Qed.

(** The four paths through the interrupt routine. *)

Lemma ISR_disabled (s : State) :
  enable_consumer s = 0 -> ISR_TIMER0_OVF s = (s, None).
Proof. intros H. unfold ISR_TIMER0_OVF. rewrite H. reflexivity. Qed.

Lemma ISR_waiting (s : State) :
  enable_consumer s <> 0 -> wrap8 (cycle s + 1) < threshold s ->
  ISR_TIMER0_OVF s = (set_cycle (wrap8 (cycle s + 1)) s, None).
Proof.
  intros He Hlt. unfold ISR_TIMER0_OVF, threshold in *.
  apply Z.eqb_neq in He. rewrite He. cbn [cycle set_cycle consume_every
    consume_every_modifier].
  destruct (Z.geb_spec (wrap8 (cycle s + 1))
              (consume_every s + consume_every_modifier s)); [lia|].
  reflexivity.
Qed.

Lemma ISR_drain (s : State) :
  enable_consumer s <> 0 -> threshold s <= wrap8 (cycle s + 1) ->
  empty s = 0 ->
  ISR_TIMER0_OVF s =
    (set_head (wrap8 ((head s + 1) mod NELEMS_queue)) (set_cycle 0 s),
     Some (Consumed (slot s (head s)) (threshold s))).
Proof.
  intros He Hge Hne. unfold ISR_TIMER0_OVF, threshold in *.
  apply Z.eqb_neq in He. rewrite He. cbn [cycle set_cycle consume_every
    consume_every_modifier].
  destruct (Z.geb_spec (wrap8 (cycle s + 1))
              (consume_every s + consume_every_modifier s)); [|lia].
  unfold empty in *. cbn [head tail set_cycle]. rewrite Hne.
  reflexivity.
Qed.

Lemma ISR_underrun (s : State) :
  enable_consumer s <> 0 -> threshold s <= wrap8 (cycle s + 1) ->
  empty s = 1 ->
  ISR_TIMER0_OVF s =
    (set_enable_consumer 0
       (set_consume_every (wrap8 (consume_every s + 1)) (set_cycle 0 s)),
     Some (QueueEmpty (wrap8 (consume_every s + 1)))).
Proof.
  intros He Hge Hne. unfold ISR_TIMER0_OVF, threshold in *.
  apply Z.eqb_neq in He. rewrite He. cbn [cycle set_cycle consume_every
    consume_every_modifier].
  destruct (Z.geb_spec (wrap8 (cycle s + 1))
              (consume_every s + consume_every_modifier s)); [|lia].
  unfold empty in *. cbn [head tail set_cycle]. rewrite Hne.
  reflexivity.
Qed.

Lemma empty_cases (s : State) : empty s = 0 \/ empty s = 1.
Proof. unfold empty. destruct (_ =? _); simpl; auto. Qed.

(** Runs of ticks, unfolded at either end. *)

Lemma state_after_0 (s : State) : state_after 0 s = s.
Proof. reflexivity. Qed.

Lemma state_after_S (n : nat) (s : State) :
  state_after (S n) s = state_after n (fst (ISR_TIMER0_OVF s)).
Proof.
  unfold state_after. cbn [run_ticks].
  destruct (ISR_TIMER0_OVF s) as [s1 o]. cbn [fst].
  destruct (run_ticks n s1) as [s2 os]. reflexivity.
Qed.

Lemma state_after_last (n : nat) (s : State) :
  state_after (S n) s = fst (ISR_TIMER0_OVF (state_after n s)).
Proof.
  revert s. induction n as [|n IH]; intros s.
  - rewrite state_after_S. reflexivity.
  - rewrite state_after_S, IH, <- state_after_S. reflexivity.
Qed.

Lemma state_after_add (n m : nat) (s : State) :
  state_after (n + m) s = state_after m (state_after n s).
Proof.
  revert s. induction n as [|n IH]; intros s; [reflexivity|].
  cbn [Nat.add]. rewrite !state_after_S. apply IH.
Qed.

Lemma run_ticks_reports (n : nat) (s : State) :
  snd (run_ticks n s) = map (fun k => report_at (S k) s) (seq 0 n).
Proof.
  revert s. induction n as [|n IH]; intros s; [reflexivity|].
  cbn [run_ticks seq map].
  destruct (ISR_TIMER0_OVF s) as [s1 o] eqn:E1.
  specialize (IH s1). destruct (run_ticks n s1) as [s2 os].
  cbn [snd] in *. f_equal.
  - unfold report_at. cbn [pred]. rewrite state_after_0, E1. reflexivity.
  - rewrite IH, <- seq_shift, map_map. apply map_ext. intros k.
    unfold report_at. cbn [pred]. rewrite state_after_S, E1. reflexivity.
Qed.

(** While the counter stays below the threshold a tick only counts. *)
Lemma ticks_waiting (n : nat) (s : State) :
  enable_consumer s <> 0 -> 0 <= cycle s ->
  cycle s + Z.of_nat n < threshold s -> cycle s + Z.of_nat n <= 255 ->
  state_after n s = set_cycle (cycle s + Z.of_nat n) s.
Proof.
  intros He H0. induction n as [|n IH]; intros Hlt Hle.
  - rewrite state_after_0, Z.add_0_r, set_cycle_same. reflexivity.
  - rewrite state_after_last, IH by lia.
    rewrite ISR_waiting; cbn [cycle set_cycle enable_consumer];
      try assumption.
    + rewrite wrap8_small by lia. cbn [fst]. rewrite set_cycle_twice.
      f_equal. lia.
    + rewrite wrap8_small by lia. unfold threshold in *.
      cbn [consume_every consume_every_modifier set_cycle]. lia.
Qed.

Lemma report_waiting (k : nat) (s : State) :
  enable_consumer s <> 0 -> 0 <= cycle s -> (1 <= k)%nat ->
  cycle s + Z.of_nat k < threshold s -> cycle s + Z.of_nat k <= 255 ->
  report_at k s = None.
Proof.
  intros He H0 Hk Hlt Hle. unfold report_at.
  rewrite ticks_waiting by (try assumption; lia).
  rewrite ISR_waiting; cbn [cycle set_cycle enable_consumer];
    try assumption.
  - reflexivity.
  - rewrite wrap8_small by lia. unfold threshold in *.
    cbn [consume_every consume_every_modifier set_cycle]. lia.
Qed.

(** The tick on which the counter reaches the threshold, with something
    waiting: one record leaves and the counter restarts. *)
Lemma ticks_period (s : State) :
  enable_consumer s <> 0 -> cycle s = 0 -> empty s = 0 ->
  1 <= threshold s <= 255 ->
  state_after (Z.to_nat (threshold s)) s
    = set_head ((head s + 1) mod NELEMS_queue) (set_cycle 0 s) /\
  report_at (Z.to_nat (threshold s)) s
    = Some (Consumed (slot s (head s)) (threshold s)).
Proof.
  intros He Hc Hne HT.
  assert (Hw : state_after (pred (Z.to_nat (threshold s))) s
               = set_cycle (threshold s - 1) s).
  { rewrite ticks_waiting by (try assumption; lia). f_equal. lia. }
  assert (Hisr : ISR_TIMER0_OVF (set_cycle (threshold s - 1) s)
                 = (set_head ((head s + 1) mod NELEMS_queue) (set_cycle 0 s),
                    Some (Consumed (slot s (head s)) (threshold s)))).
  { rewrite ISR_drain; cbn [cycle set_cycle enable_consumer];
      try assumption.
    - rewrite wrap8_small; [reflexivity|].
      unfold NELEMS_queue. cbn [head set_cycle].
      pose proof (Z.mod_pos_bound (head s + 1) 128 ltac:(lia)). lia.
    - replace (threshold s - 1 + 1) with (threshold s) by lia.
      rewrite wrap8_small by lia. unfold threshold.
      cbn [consume_every consume_every_modifier set_cycle]. lia. }
  split.
  - replace (Z.to_nat (threshold s))
      with (S (pred (Z.to_nat (threshold s)))) by lia.
    rewrite state_after_last, Hw, Hisr. reflexivity.
  - unfold report_at. rewrite Hw, Hisr. reflexivity.
Qed.

Lemma dequeue_at_None (k : nat) (s : State) :
  report_at k s = None -> dequeue_at k s = false.
Proof. unfold dequeue_at. intros ->. reflexivity. Qed.

(** With the threshold above 255 the counter only goes round. *)
Lemma ticks_stuck (n : nat) (s : State) :
  0 <= cycle s < 256 -> 255 < threshold s ->
  state_after n s =
    set_cycle (if enable_consumer s =? 0 then cycle s
               else wrap8 (cycle s + Z.of_nat n)) s.
Proof.
  intros Hc HT. induction n as [|n IH].
  - rewrite state_after_0, Z.add_0_r, wrap8_small by assumption.
    destruct (_ =? _); rewrite set_cycle_same; reflexivity.
  - rewrite state_after_last, IH.
    destruct (enable_consumer s =? 0) eqn:He.
    + apply Z.eqb_eq in He. rewrite set_cycle_same, ISR_disabled by assumption.
      reflexivity.
    + apply Z.eqb_neq in He.
      pose proof (wrap8_bounds (wrap8 (cycle s + Z.of_nat n) + 1)) as Hb.
      rewrite ISR_waiting; cbn [cycle set_cycle enable_consumer];
        try assumption.
      * cbn [fst]. rewrite set_cycle_twice. f_equal. unfold wrap8.
        rewrite Zplus_mod_idemp_l. f_equal. lia.
      * unfold threshold in *.
        cbn [consume_every consume_every_modifier set_cycle]. lia.
Qed.

(** A tick never touches [consume_every_modifier]. *)
Lemma ISR_keeps_modifier (s : State) :
  consume_every_modifier (fst (ISR_TIMER0_OVF s)) = consume_every_modifier s.
Proof.
  unfold ISR_TIMER0_OVF.
  destruct (enable_consumer s =? 0); [reflexivity|].
  destruct (_ >=? _); [|reflexivity].
  destruct (empty _ =? 0); reflexivity.
Qed.

(** A tick either keeps [consume_every] or stores [consume_every + 1]. *)
Lemma ISR_consume_every (s : State) :
  consume_every (fst (ISR_TIMER0_OVF s)) = consume_every s \/
  consume_every (fst (ISR_TIMER0_OVF s)) = wrap8 (consume_every s + 1).
Proof.
  unfold ISR_TIMER0_OVF.
  destruct (enable_consumer s =? 0); [left; reflexivity|].
  destruct (_ >=? _); [|left; reflexivity].
  destruct (empty _ =? 0); [left|right]; reflexivity.
Qed.

(** Below 255 the store does not wrap, so a tick does not lower
    [consume_every]. *)
Lemma ISR_consume_every_below_255 (s : State) :
  0 <= consume_every s < 255 ->
  consume_every s <= consume_every (fst (ISR_TIMER0_OVF s)).
Proof.
  intros H. destruct (ISR_consume_every s) as [E|E]; rewrite E; [lia|].
  rewrite wrap8_small; lia.
Qed.

(** Below 255 an underrun adds exactly one to [consume_every], clears
    [enable_consumer] and leaves [head] alone. *)
Lemma underrun_below_255 (s : State) :
  enable_consumer s <> 0 -> threshold s <= wrap8 (cycle s + 1) ->
  empty s = 1 -> 0 <= consume_every s < 255 ->
  consume_every (fst (ISR_TIMER0_OVF s)) = consume_every s + 1 /\
  enable_consumer (fst (ISR_TIMER0_OVF s)) = 0 /\
  head (fst (ISR_TIMER0_OVF s)) = head s /\
  snd (ISR_TIMER0_OVF s) = Some (QueueEmpty (consume_every s + 1)).
Proof.
  intros He HT Hem Hc. rewrite ISR_underrun by assumption.
  rewrite wrap8_small by lia. repeat split.
Qed.

(** The underrun branch on two literal states: from 1 the period becomes
    2; from 255 it becomes 0. *)
Example ISR_underrun_at_1 :
  ISR_TIMER0_OVF underrun_at_1 =
    (set_consume_every 2 initial_state, Some (QueueEmpty 2)).
Proof. reflexivity. Qed.

Example ISR_underrun_at_255 :
  ISR_TIMER0_OVF underrun_at_255 =
    (mkState (replicate 128 rgb_zero) 0 0 0 0 0 0, Some (QueueEmpty 0)).
Proof. vm_compute. reflexivity. Qed.

(** C7: when [enable_consumer] is 0 a tick changes nothing: [cycle],
    [consume_every], [head] and the rest of the state are as before, no
    record is dequeued and nothing is sent to the sink. *)
Theorem tick_disabled_changes_nothing (s : State) :
  enable_consumer s = 0 ->
  ISR_TIMER0_OVF s = (s, None) /\ dequeue_at 1 s = false.
Proof.
  intros He. split; [apply ISR_disabled; exact He|].
  apply dequeue_at_None. unfold report_at. cbn [pred].
  rewrite state_after_0, ISR_disabled by exact He. reflexivity.
Qed.

Lemma tick_disabled_changes_nothing_witness :
  enable_consumer one_waiting = 0 /\
  ISR_TIMER0_OVF one_waiting = (one_waiting, None) /\
  dequeue_at 1 one_waiting = false.
Proof.
  exact (conj eq_refl (tick_disabled_changes_nothing one_waiting eq_refl)).
Defined.

(** C2, as the specification states it, fails: with
    [consume_every = 1] and [consume_every_modifier = 255] the threshold is
    256, the consumer is enabled, a record is waiting and [cycle] is 0, yet
    tick number 256 does not dequeue. *)
Lemma drains_on_schedule_fails_at_256 :
  enable_consumer period_256 <> 0 /\ empty period_256 = 0 /\
  cycle period_256 = 0 /\ threshold period_256 = 256 /\
  ~ drains_on_schedule period_256.
Proof.
  split; [discriminate|]. do 3 (split; [reflexivity|]).
  intros [_ [H _]]. vm_compute in H. discriminate.
Qed.

(** A threshold of 0 has no tick of that number: the first tick already
    dequeues. *)
Lemma drains_on_schedule_fails_at_0 :
  enable_consumer period_0 <> 0 /\ empty period_0 = 0 /\
  cycle period_0 = 0 /\ threshold period_0 = 0 /\
  dequeue_at 1 period_0 = true /\
  ~ drains_on_schedule period_0.
Proof.
  split; [discriminate|]. do 4 (split; [reflexivity|]).
  intros [_ [_ [H _]]]. vm_compute in H. discriminate.
Qed.

(** C2, amended: with the consumer enabled, a record waiting and
    [cycle = 0], provided [consume_every + consume_every_modifier] lies in
    [1, 255], no tick numbered below that sum dequeues, and the tick whose
    number is the sum dequeues exactly one record and resets [cycle]
    to 0. *)
Theorem drains_on_schedule_in_byte_range (s : State) :
  enable_consumer s <> 0 -> empty s = 0 -> cycle s = 0 ->
  1 <= threshold s <= 255 ->
  drains_on_schedule s.
Proof.
  intros He Hne Hc HT. split.
  - intros k Hk Hlt. split.
    + apply dequeue_at_None, report_waiting; try assumption; lia.
    + rewrite ticks_waiting by (try assumption; lia). reflexivity.
  - destruct (ticks_period s He Hc Hne HT) as [Hs Hr].
    unfold dequeue_at. rewrite Hr, Hs. repeat split.
Qed.

Lemma drains_on_schedule_in_byte_range_witness :
  enable_consumer period_3 <> 0 /\ empty period_3 = 0 /\
  cycle period_3 = 0 /\ 1 <= threshold period_3 <= 255 /\
  drains_on_schedule period_3.
Proof.
  assert (He : enable_consumer period_3 <> 0) by discriminate.
  assert (HT : 1 <= threshold period_3 <= 255) by (vm_compute; split; discriminate).
  exact (conj He (conj eq_refl (conj eq_refl (conj HT
           (drains_on_schedule_in_byte_range period_3 He eq_refl eq_refl HT))))).
Defined.

(** C10: when [consume_every + consume_every_modifier], computed exactly,
    exceeds 255, the 8-bit [cycle] never reaches it: after any number of
    ticks only [cycle] may have changed, it is the old value advanced
    modulo 256 and is below the threshold, and the next tick sends nothing
    and dequeues nothing. *)
Theorem wide_threshold_never_drains (s : State) (n : nat) :
  0 <= cycle s < 256 -> 255 < threshold s ->
  state_after n s =
    set_cycle (if enable_consumer s =? 0 then cycle s
               else wrap8 (cycle s + Z.of_nat n)) s /\
  head (state_after n s) = head s /\
  threshold (state_after n s) = threshold s /\
  cycle (state_after n s) < threshold s /\
  report_at (S n) s = None /\
  dequeue_at (S n) s = false.
Proof.
  intros Hc HT. pose proof (ticks_stuck n s Hc HT) as Hs.
  assert (Hcy : cycle (state_after n s) < threshold s).
  { rewrite Hs. cbn [cycle set_cycle].
    destruct (_ =? _); [lia|].
    pose proof (wrap8_bounds (cycle s + Z.of_nat n)). lia. }
  assert (Hr : report_at (S n) s = None).
  { unfold report_at. cbn [pred].
    pose proof (state_after_last n s) as Hl.
    pose proof (ticks_stuck (S n) s Hc HT) as Hs'.
    rewrite Hl in Hs'. rewrite Hs.
    destruct (enable_consumer s =? 0) eqn:He.
    - apply Z.eqb_eq in He. rewrite set_cycle_same, ISR_disabled by assumption.
      reflexivity.
    - apply Z.eqb_neq in He.
      pose proof (wrap8_bounds (wrap8 (cycle s + Z.of_nat n) + 1)) as Hb.
      rewrite ISR_waiting; cbn [cycle set_cycle enable_consumer];
        try assumption; [reflexivity|].
      unfold threshold in *.
      cbn [consume_every consume_every_modifier set_cycle]. lia. }
  split; [exact Hs|]. split; [rewrite Hs; reflexivity|].
  split; [rewrite Hs; reflexivity|]. split; [exact Hcy|].
  split; [exact Hr|]. apply dequeue_at_None, Hr.
Qed.

Lemma wide_threshold_never_drains_witness :
  0 <= cycle period_256 < 256 /\ 255 < threshold period_256 /\
  state_after 1000 period_256 =
    set_cycle (if enable_consumer period_256 =? 0 then cycle period_256
               else wrap8 (cycle period_256 + Z.of_nat 1000)) period_256 /\
  head (state_after 1000 period_256) = head period_256 /\
  threshold (state_after 1000 period_256) = threshold period_256 /\
  cycle (state_after 1000 period_256) < threshold period_256 /\
  report_at 1001 period_256 = None /\
  dequeue_at 1001 period_256 = false.
Proof.
  assert (Hc : 0 <= cycle period_256 < 256) by (vm_compute; split; discriminate || reflexivity).
  assert (HT : 255 < threshold period_256) by reflexivity.
  exact (conj Hc (conj HT (wide_threshold_never_drains period_256 1000 Hc HT))).
Defined.

End RateController.

(** ** Reaching [consume_every = 255] from reset *)

Section Calibration.

Lemma run_events_app (es1 es2 : list Event) (s : State) :
  run_events (es1 ++ es2) s =
    match run_events es1 s with
    | Some s' => run_events es2 s'
    | None => None
    end.
Proof.
  revert s. induction es1 as [|e es1 IH]; intros s; [reflexivity|].
  cbn [app run_events]. destruct (step e s); [apply IH | reflexivity].
Qed.

Lemma run_events_ticks (n : nat) (s : State) :
  run_events (replicate n EvTick) s = Some (state_after n s).
Proof.
  revert s. induction n as [|n IH]; intros s; [reflexivity|].
  cbn [replicate run_events step]. rewrite IH, state_after_S. reflexivity.
Qed.

Lemma run_events_enqueues (rgbs : list RGB) :
  forall s : State,
    wf s -> count s + Z.of_nat (length rgbs) <= 127 ->
    exists s', run_events (map EvEnqueue rgbs) s = Some s' /\
               wf s' /\ count s' = count s + Z.of_nat (length rgbs) /\
               enable_consumer s' = enable_consumer s /\
               consume_every_modifier s' = consume_every_modifier s /\
               cycle s' = cycle s /\ consume_every s' = consume_every s.
Proof.
  induction rgbs as [|rgb rgbs IH]; intros s Hwf Hlen;
    cbn [map run_events step length] in *.
  - exists s. split; [reflexivity|]. split; [assumption|].
    split; [lia|]. repeat split.
  - assert (Hf : full s = 0).
    { destruct (full_cases s) as [H|H]; [assumption|].
      apply (count_full s Hwf) in H. lia. }
    rewrite Hf. cbn [Z.eqb].
    destruct (IH (enqueue rgb s) (enqueue_wf rgb s Hwf))
      as (s' & Hr & Hwf' & Hc & H1 & H2 & H3 & H4).
    + rewrite (count_enqueue rgb s Hwf Hf). lia.
    + exists s'. split; [assumption|]. split; [assumption|].
      rewrite Hc, (count_enqueue rgb s Hwf Hf).
      split; [lia|]. repeat split; assumption.
Qed.

Lemma count_0 (s : State) : wf s -> (count s = 0 <-> empty s = 1).
Proof.
  intros [Hq Hh Ht _ _ _ _]. rewrite empty_1.
  unfold count, NELEMS_queue in *. split; intros H.
  - Z.div_mod_to_equations. lia.
  - rewrite H, Z.sub_diag. reflexivity.
Qed.

(** The producer's part of a round. *)
Lemma fill_reaches (s : State) :
  wf s -> empty s = 1 ->
  exists s', run_events fill_events s = Some s' /\
             wf s' /\ count s' = 127 /\ enable_consumer s' = 1 /\
             consume_every_modifier s' = consume_every_modifier s /\
             cycle s' = cycle s /\ consume_every s' = consume_every s.
Proof.
  intros Hwf He. unfold fill_events. rewrite run_events_app.
  destruct (run_events_enqueues (replicate 127 rgb_zero) s Hwf)
    as (s1 & Hr & Hwf1 & Hc & H1 & H2 & H3 & H4).
  { rewrite (count_empty s He), length_replicate. lia. }
  rewrite Hr. cbn [run_events step].
  rewrite (count_empty s He), length_replicate in Hc.
  assert (Hf : full s1 = 1) by (apply (count_full s1 Hwf1); lia).
  rewrite Hf. cbn [Z.eqb].
  exists (set_enable_consumer 1 s1). split; [reflexivity|].
  split; [destruct Hwf1; split; cbn; try assumption; lia|].
  split; [exact Hc|]. repeat split; assumption.
Qed.

(** With [n] records waiting, [n] periods take them all. *)
Lemma drain_all (n : nat) :
  forall s : State,
    wf s -> enable_consumer s <> 0 -> cycle s = 0 ->
    1 <= threshold s <= 255 -> count s = Z.of_nat n ->
    let s' := state_after (n * Z.to_nat (threshold s)) s in
    wf s' /\ empty s' = 1 /\ cycle s' = 0 /\
    enable_consumer s' = enable_consumer s /\
    consume_every_modifier s' = consume_every_modifier s /\
    consume_every s' = consume_every s.
Proof.
  induction n as [|n IH]; intros s Hwf He Hc HT Hn; cbn zeta.
  - cbn [Nat.mul]. rewrite state_after_0.
    split; [assumption|]. split; [apply (count_0 s Hwf); lia|].
    split; [assumption|]. repeat split.
  - cbn [Nat.mul]. rewrite state_after_add.
    assert (Hne : empty s = 0).
    { destruct (empty_cases s) as [H|H]; [assumption|].
      apply (count_0 s Hwf) in H. lia. }
    destruct (ticks_period s He Hc Hne HT) as [Hs _]. rewrite Hs.
    set (s1 := set_head ((head s + 1) mod NELEMS_queue) (set_cycle 0 s)).
    assert (HT1 : threshold s1 = threshold s) by reflexivity.
    assert (Hwf1 : wf s1).
    { destruct Hwf. split; cbn; try assumption; try lia.
      apply Z.mod_pos_bound. unfold NELEMS_queue. lia. }
    assert (Hn1 : count s1 = Z.of_nat n).
    { apply empty_0 in Hne. destruct Hwf as [_ Hh Ht _ _ _ _].
      unfold count, NELEMS_queue in *. cbn [head tail s1 set_head set_cycle].
      Z.div_mod_to_equations. lia. }
    rewrite <- HT1.
    destruct (IH s1 Hwf1 He eq_refl ltac:(rewrite HT1; exact HT) Hn1)
      as (H1 & H2 & H3 & H4 & H5 & H6).
    split; [exact H1|]. split; [exact H2|]. split; [exact H3|].
    split; [exact H4|]. split; [exact H5 | exact H6].
Qed.

(** With nothing waiting, the tick that ends the period is an underrun. *)
Lemma ticks_underrun (s : State) :
  enable_consumer s <> 0 -> cycle s = 0 -> empty s = 1 ->
  1 <= threshold s <= 255 ->
  state_after (Z.to_nat (threshold s)) s =
    set_enable_consumer 0
      (set_consume_every (wrap8 (consume_every s + 1)) (set_cycle 0 s)).
Proof.
  intros He Hc Hem HT.
  replace (Z.to_nat (threshold s))
    with (S (pred (Z.to_nat (threshold s)))) by lia.
  rewrite state_after_last, ticks_waiting by (try assumption; lia).
  rewrite ISR_underrun; cbn [cycle set_cycle enable_consumer];
    try assumption.
  - reflexivity.
  - rewrite Hc, wrap8_small by lia. unfold threshold in *.
    cbn [consume_every consume_every_modifier set_cycle]. lia.
Qed.

(** One round lengthens the period by one tick. *)
Lemma round_reaches (c : Z) (s : State) :
  wf s -> empty s = 1 -> cycle s = 0 -> consume_every_modifier s = 0 ->
  consume_every s = c -> 1 <= c <= 254 ->
  exists s', run_events (round_events c) s = Some s' /\
             wf s' /\ empty s' = 1 /\ cycle s' = 0 /\
             consume_every_modifier s' = 0 /\ consume_every s' = c + 1.
Proof.
  intros Hwf He Hcy Hm Hce Hc. unfold round_events.
  rewrite run_events_app.
  destruct (fill_reaches s Hwf He) as (s1 & Hr & Hwf1 & Hn1 & He1 & Hm1 & Hc1 & Hce1).
  rewrite Hr, run_events_ticks.
  assert (HT1 : threshold s1 = c) by (unfold threshold; lia).
  replace (128 * Z.to_nat c)%nat
    with (127 * Z.to_nat (threshold s1) + Z.to_nat (threshold s1))%nat
    by (rewrite HT1; lia).
  rewrite state_after_add.
  destruct (drain_all 127 s1 Hwf1 ltac:(lia) ltac:(lia) ltac:(lia) Hn1)
    as (Hwf2 & He2 & Hc2 & Hen2 & Hm2 & Hce2).
  set (s2 := state_after (127 * Z.to_nat (threshold s1)) s1) in *.
  assert (HT2 : threshold s2 = threshold s1) by (unfold threshold; lia).
  rewrite <- HT2.
  rewrite (ticks_underrun s2) by (try assumption; lia).
  eexists. split; [reflexivity|].
  split; [destruct Hwf2; split; cbn; try assumption; try lia;
          apply wrap8_bounds|].
  split; [exact He2|]. split; [reflexivity|].
  split; [cbn; lia|].
  cbn [consume_every set_enable_consumer set_consume_every].
  rewrite wrap8_small; lia.
Qed.

(** [n] rounds lengthen it by [n] ticks, up to 255. *)
Lemma calibration_reaches (n : nat) :
  forall (c : Z) (s : State),
    wf s -> empty s = 1 -> cycle s = 0 -> consume_every_modifier s = 0 ->
    consume_every s = c -> 1 <= c -> c + Z.of_nat n <= 255 ->
    exists s', run_events (calibration_events n c) s = Some s' /\
               wf s' /\ empty s' = 1 /\ cycle s' = 0 /\
               consume_every_modifier s' = 0 /\
               consume_every s' = c + Z.of_nat n.
Proof.
  induction n as [|n IH]; intros c s Hwf He Hcy Hm Hce Hc Hn;
    cbn [calibration_events].
  - exists s. split; [reflexivity|]. split; [assumption|].
    split; [assumption|]. split; [assumption|]. split; [assumption|]. lia.
  - rewrite run_events_app.
    destruct (round_reaches c s Hwf He Hcy Hm Hce ltac:(lia))
      as (s1 & Hr & Hwf1 & He1 & Hc1 & Hm1 & Hce1).
    rewrite Hr.
    destruct (IH (c + 1) s1 Hwf1 He1 Hc1 Hm1 Hce1 ltac:(lia) ltac:(lia))
      as (s2 & Hr2 & Hwf2 & He2 & Hc2 & Hm2 & Hce2).
    exists s2. split; [assumption|]. split; [assumption|].
    split; [assumption|]. split; [assumption|]. split; [assumption|]. lia.
Qed.

(** The program can be one tick away from an underrun with
    [consume_every = 255] and no modifier. *)
Lemma consume_every_255_reachable :
  exists s, run_events events_to_255 initial_state = Some s /\
            wf s /\ enable_consumer s = 1 /\ empty s = 1 /\
            cycle s = 254 /\ consume_every_modifier s = 0 /\
            consume_every s = 255.
Proof.
  unfold events_to_255. rewrite run_events_app.
  destruct (calibration_reaches 254 1 initial_state initial_state_wf
              eq_refl eq_refl eq_refl eq_refl ltac:(lia) ltac:(lia))
    as (s0 & Hr0 & Hwf0 & He0 & Hc0 & Hm0 & Hce0).
  rewrite Hr0, run_events_app.
  destruct (fill_reaches s0 Hwf0 He0)
    as (s1 & Hr & Hwf1 & Hn1 & He1 & Hm1 & Hc1 & Hce1).
  rewrite Hr, run_events_ticks.
  assert (HT1 : threshold s1 = 255) by (unfold threshold; lia).
  replace (127 * 255 + 254)%nat
    with (127 * Z.to_nat (threshold s1) + 254)%nat by (rewrite HT1; lia).
  rewrite state_after_add.
  destruct (drain_all 127 s1 Hwf1 ltac:(lia) ltac:(lia) ltac:(lia) Hn1)
    as (Hwf2 & He2 & Hc2 & Hen2 & Hm2 & Hce2).
  set (s2 := state_after (127 * Z.to_nat (threshold s1)) s1) in *.
  assert (HT2 : threshold s2 = 255) by (unfold threshold; lia).
  rewrite (ticks_waiting 254 s2) by lia.
  eexists. split; [reflexivity|].
  split; [destruct Hwf2; split; cbn; try assumption; lia|].
  split; [cbn; lia|]. split; [exact He2|].
  split; [cbn; lia|]. split; [cbn; lia|]. cbn; lia.
Qed.

(** What the next tick does there. *)
Lemma ISR_at_255 (s : State) :
  enable_consumer s = 1 -> empty s = 1 -> cycle s = 254 ->
  consume_every_modifier s = 0 -> consume_every s = 255 ->
  threshold s <= wrap8 (cycle s + 1) /\
  ISR_TIMER0_OVF s =
    (set_enable_consumer 0 (set_consume_every 0 (set_cycle 0 s)),
     Some (QueueEmpty 0)).
Proof.
  intros He Hem Hc Hm Hce.
  assert (HT : threshold s <= wrap8 (cycle s + 1)).
  { unfold threshold. rewrite Hc, Hm, Hce. vm_compute. discriminate. }
  split; [exact HT|].
  rewrite ISR_underrun by (try assumption; lia).
  rewrite Hce. reflexivity.
Qed.

(** C3: on a tick where a drain is due and the buffer is empty the handler
    is to add exactly 1 to [consume_every], clear [enable_consumer] and
    leave [head] alone.  The code does the last two, but [consume_every++]
    is a byte store: the state below is reached from reset, a drain is due
    in it, the buffer is empty, [consume_every] is 255, and the tick leaves
    [consume_every] at 0 and reports 0. *)
Theorem underrun_at_255_wraps_consume_every :
  exists s,
    run_events events_to_255 initial_state = Some s /\
    enable_consumer s <> 0 /\ threshold s <= wrap8 (cycle s + 1) /\
    empty s = 1 /\ consume_every s = 255 /\
    consume_every (fst (ISR_TIMER0_OVF s)) = 0 /\
    consume_every (fst (ISR_TIMER0_OVF s)) <> consume_every s + 1 /\
    snd (ISR_TIMER0_OVF s) = Some (QueueEmpty 0) /\
    enable_consumer (fst (ISR_TIMER0_OVF s)) = 0 /\
    head (fst (ISR_TIMER0_OVF s)) = head s.
Proof.
  destruct consume_every_255_reachable
    as (s & Hr & Hwf & He & Hem & Hc & Hm & Hce).
  destruct (ISR_at_255 s He Hem Hc Hm Hce) as [HT Hisr].
  exists s. rewrite Hisr. cbn [fst snd].
  split; [exact Hr|]. split; [lia|]. split; [exact HT|].
  split; [exact Hem|]. split; [exact Hce|]. split; [reflexivity|].
  split; [cbn; lia|]. repeat split.
Qed.

(** C5: [consume_every] is not to decrease from one tick to the next while
    nothing changes [consume_every_modifier].  In the state below, reached
    from reset by enqueues, spins and ticks alone, one more tick leaves the
    modifier as it is and takes [consume_every] from 255 down to 0. *)
Theorem consume_every_decreases_at_255 :
  exists s,
    run_events events_to_255 initial_state = Some s /\
    consume_every_modifier (state_after 1 s) = consume_every_modifier s /\
    consume_every s = 255 /\
    consume_every (state_after 1 s) = 0 /\
    consume_every (state_after 1 s) < consume_every s.
Proof.
  destruct consume_every_255_reachable
    as (s & Hr & Hwf & He & Hem & Hc & Hm & Hce).
  destruct (ISR_at_255 s He Hem Hc Hm Hce) as [HT Hisr].
  exists s. rewrite state_after_last, state_after_0, Hisr. cbn [fst].
  split; [exact Hr|]. split; [reflexivity|]. split; [exact Hce|].
  split; [reflexivity|]. cbn. lia.
Qed.

End Calibration.

(** ** Producer *)

Section Producer.

Context {W : Type} (produce : RGB -> W -> W).

Lemma zrange_S (a : Z) (k : nat) : zrange a (S k) = a :: zrange (a + 1) k.
Proof.
  unfold zrange. cbn [seq map]. rewrite <- seq_shift, map_map. f_equal.
  - lia.
  - apply map_ext. intros i. lia.
Qed.

Lemma feed_cons (c : RGB) (cs : list RGB) (w : W) :
  feed produce (c :: cs) w = feed produce cs (produce c w).
Proof. reflexivity. Qed.

Lemma feed_nil (w : W) : feed produce [] w = w.
Proof. reflexivity. Qed.

Lemma feed_app (cs1 cs2 : list RGB) (w : W) :
  feed produce (cs1 ++ cs2) w = feed produce cs2 (feed produce cs1 w).
Proof. unfold feed. apply foldl_app. Qed.

(** The innermost loop started at [b = b0] makes [256 - b0] turns, hands
    the body every triplet from [b0] to 255 and stops with [b = 0]. *)
Lemma loop_b_runs (k : nat) :
  forall (fuel : nat) (r0 g0 b0 : Z) (w : W),
    (1 <= k <= fuel)%nat -> 0 <= b0 -> b0 + Z.of_nat k = 256 ->
    loop_b produce fuel (mkRGB r0 g0 b0, w) =
      Some (mkRGB r0 g0 0, feed produce (map (mkRGB r0 g0) (zrange b0 k)) w).
Proof.
  induction k as [|k IH]; intros fuel r0 g0 b0 w Hk Hb Hsum; [lia|].
  destruct fuel as [|fuel]; [lia|].
  unfold loop_b in *. cbn [do_while fst snd incr_b r g b].
  rewrite (zrange_S b0 k). cbn [map]. rewrite feed_cons.
  destruct (Z.eq_dec b0 255) as [E|E].
  - subst b0. assert (k = 0%nat) by lia. subst k. reflexivity.
  - rewrite wrap8_small by lia.
    destruct (Z.eqb_spec (b0 + 1) 0) as [E0|_]; [lia|]. cbn [negb].
    apply IH; lia.
Qed.

(** The middle loop, whatever fuel [F >= 256] its body is given. *)
Lemma loop_g_runs (F : nat) (HF : (256 <= F)%nat) (k : nat) :
  forall (fuel : nat) (r0 g0 : Z) (w : W),
    (1 <= k <= fuel)%nat -> 0 <= g0 -> g0 + Z.of_nat k = 256 ->
    do_while fuel (loop_b produce F) incr_g (mkRGB r0 g0 0, w) =
      Some (mkRGB r0 0 0,
            feed produce
              (flat_map (fun g1 => map (mkRGB r0 g1) (zrange 0 256))
                        (zrange g0 k)) w).
Proof.
  induction k as [|k IH]; intros fuel r0 g0 w Hk Hg Hsum; [lia|].
  destruct fuel as [|fuel]; [lia|].
  cbn [do_while]. rewrite (loop_b_runs 256) by lia.
  cbn [fst snd incr_g r g b].
  rewrite (zrange_S g0 k). cbn [flat_map]. rewrite feed_app.
  destruct (Z.eq_dec g0 255) as [E|E].
  - subst g0. assert (k = 0%nat) by lia. subst k.
    change (wrap8 (255 + 1)) with 0. change (0 =? 0) with true.
    change (zrange (255 + 1) 0) with (@nil Z).
    cbn [negb flat_map]. rewrite feed_nil. reflexivity.
  - rewrite wrap8_small by lia.
    destruct (Z.eqb_spec (g0 + 1) 0) as [E0|_]; [lia|]. cbn [negb].
    apply IH; lia.
Qed.

(** The outer loop. *)
Lemma loop_r_runs (F : nat) (HF : (256 <= F)%nat) (k : nat) :
  forall (fuel : nat) (r0 : Z) (w : W),
    (1 <= k <= fuel)%nat -> 0 <= r0 -> r0 + Z.of_nat k = 256 ->
    do_while fuel (loop_g produce F) incr_r (mkRGB r0 0 0, w) =
      Some (rgb_zero,
            feed produce
              (flat_map (fun r1 =>
                 flat_map (fun g1 => map (mkRGB r1 g1) (zrange 0 256))
                          (zrange 0 256))
                 (zrange r0 k)) w).
Proof.
  induction k as [|k IH]; intros fuel r0 w Hk Hr Hsum; [lia|].
  destruct fuel as [|fuel]; [lia|].
  cbn [do_while]. unfold loop_g at 1.
  rewrite (loop_g_runs F HF 256) by lia.
  cbn [fst snd incr_r r g b].
  rewrite (zrange_S r0 k). cbn [flat_map]. rewrite feed_app.
  destruct (Z.eq_dec r0 255) as [E|E].
  - subst r0. assert (k = 0%nat) by lia. subst k.
    change (wrap8 (255 + 1)) with 0. change (0 =? 0) with true.
    change (zrange (255 + 1) 0) with (@nil Z).
    cbn [negb flat_map]. rewrite feed_nil. reflexivity.
  - rewrite wrap8_small by lia.
    destruct (Z.eqb_spec (r0 + 1) 0) as [E0|_]; [lia|]. cbn [negb].
    apply IH; lia.
Qed.

(** One pass hands the body the whole odometer, in order, and ends with
    the triplet back at zero. *)
Lemma producer_pass_feeds_odometer (fuel : nat) (w : W) :
  (256 <= fuel)%nat ->
  producer_pass produce fuel w = Some (rgb_zero, feed produce odometer w).
Proof.
  intros HF. unfold producer_pass, loop_r, rgb_zero.
  rewrite (loop_r_runs fuel HF 256) by lia. reflexivity.
Qed.

End Producer.

(** ** The order of enumeration *)

Section Odometer.

Lemma length_zrange (a : Z) (n : nat) : length (zrange a n) = n.
Proof. unfold zrange. rewrite length_map, length_seq. reflexivity. Qed.

Lemma lookup_zrange (a : Z) (n i : nat) :
  (i < n)%nat -> zrange a n !! i = Some (a + Z.of_nat i).
Proof.
  intros Hi. unfold zrange. rewrite list_lookup_fmap.
  rewrite lookup_seq_lt by exact Hi. reflexivity.
Qed.

Lemma In_zrange (a : Z) (n : nat) (z : Z) :
  In z (zrange a n) -> a <= z < a + Z.of_nat n.
Proof.
  unfold zrange. rewrite in_map_iff. intros (i & <- & Hi).
  apply in_seq in Hi. lia.
Qed.

(** Blocks of equal length laid end to end. *)
Lemma length_flat_map_uniform {A B : Type} (f : A -> list B) (k : nat)
    (l : list A) :
  (forall a, length (f a) = k) -> length (flat_map f l) = (length l * k)%nat.
Proof.
  intros Hk. induction l as [|a l IH]; [reflexivity|].
  cbn [flat_map length]. rewrite length_app, Hk, IH. lia.
Qed.

Lemma lookup_flat_map_uniform {A B : Type} (f : A -> list B) (k : nat)
    (l : list A) :
  (forall a, length (f a) = k) ->
  forall (i j : nat) (x : A),
    l !! i = Some x -> (j < k)%nat ->
    flat_map f l !! (i * k + j)%nat = f x !! j.
Proof.
  intros Hk. induction l as [|a l IH]; intros i j x Hi Hj.
  - rewrite lookup_nil in Hi. discriminate.
  - cbn [flat_map]. destruct i as [|i].
    + cbn in Hi. inversion Hi; subst. rewrite lookup_app_l by (rewrite Hk; lia).
      reflexivity.
    + cbn in Hi. rewrite lookup_app_r by (rewrite Hk; lia).
      rewrite Hk. replace (S i * k + j - k)%nat with (i * k + j)%nat by lia.
      apply IH; assumption.
Qed.

Lemma length_odometer_row (r0 g0 : Z) :
  length (map (mkRGB r0 g0) (zrange 0 256)) = 256%nat.
Proof. rewrite length_map. apply length_zrange. Qed.

Lemma length_odometer_plane (r0 : Z) :
  length (flat_map (fun g0 => map (mkRGB r0 g0) (zrange 0 256)) (zrange 0 256))
    = (256 * 256)%nat.
Proof.
  rewrite (length_flat_map_uniform _ 256) by (intros; apply length_odometer_row).
  rewrite length_zrange. reflexivity.
Qed.

Lemma length_odometer : Z.of_nat (length odometer) = 2 ^ 24.
Proof.
  unfold odometer.
  rewrite (length_flat_map_uniform _ (256 * 256))
    by (intros; apply length_odometer_plane).
  rewrite length_zrange. lia.
Qed.

(** Position [n] of the enumeration holds the triplet whose digits are
    those of [n] in base 256. *)
Lemma lookup_odometer (n : Z) :
  0 <= n < 2 ^ 24 -> odometer !! Z.to_nat n = Some (rgb_of_index n).
Proof.
  intros Hn. unfold odometer, rgb_of_index.
  assert (Hr : 0 <= n / 65536 < 256) by (Z.div_mod_to_equations; lia).
  assert (Hg : 0 <= (n / 256) mod 256 < 256) by (Z.div_mod_to_equations; lia).
  assert (Hb : 0 <= n mod 256 < 256) by (Z.div_mod_to_equations; lia).
  replace (Z.to_nat n)
    with (Z.to_nat (n / 65536) * (256 * 256)
          + (Z.to_nat ((n / 256) mod 256) * 256 + Z.to_nat (n mod 256)))%nat
    by (Z.div_mod_to_equations; lia).
  rewrite (lookup_flat_map_uniform _ (256 * 256) _
             (fun r0 => length_odometer_plane r0) _ _ (n / 65536)).
  - rewrite (lookup_flat_map_uniform _ 256 _
               (fun g0 => length_odometer_row (n / 65536) g0) _ _
               ((n / 256) mod 256)).
    + rewrite list_lookup_fmap, lookup_zrange by lia.
      cbn [fmap option_fmap option_map]. do 2 f_equal. lia.
    + rewrite lookup_zrange by lia. f_equal. lia.
    + lia.
  - rewrite lookup_zrange by lia. f_equal. lia.
  - lia.
Qed.

Lemma rgb_of_index_inj (n m : Z) :
  0 <= n < 2 ^ 24 -> 0 <= m < 2 ^ 24 ->
  rgb_of_index n = rgb_of_index m -> n = m.
Proof.
  intros Hn Hm E. unfold rgb_of_index in E. inversion E as [[E1 E2 E3]].
  clear E. Z.div_mod_to_equations. lia.
Qed.

Lemma rgb_of_index_valid (n : Z) :
  0 <= n < 2 ^ 24 -> rgb_valid (rgb_of_index n).
Proof.
  intros Hn. unfold rgb_valid, rgb_of_index. cbn [r g b].
  Z.div_mod_to_equations. lia.
Qed.

Lemma rgb_of_index_succ (n : Z) :
  0 <= n -> n + 1 < 2 ^ 24 ->
  rgb_of_index (n + 1) = odometer_succ (rgb_of_index n).
Proof.
  intros Hn Hm. unfold odometer_succ, rgb_of_index. cbn [r g b].
  destruct (Z.ltb_spec (n mod 256) 255) as [Hb|Hb].
  - f_equal; Z.div_mod_to_equations; lia.
  - destruct (Z.ltb_spec ((n / 256) mod 256) 255) as [Hg|Hg].
    + f_equal; Z.div_mod_to_equations; lia.
    + unfold wrap8. f_equal; Z.div_mod_to_equations; lia.
Qed.

Lemma lookup_odometer_nat (i : nat) (c : RGB) :
  odometer !! i = Some c ->
  Z.of_nat i < 2 ^ 24 /\ c = rgb_of_index (Z.of_nat i).
Proof.
  intros Hi. pose proof (lookup_lt_Some _ _ _ Hi) as Hlt.
  pose proof length_odometer as Hlen.
  assert (Hb : 0 <= Z.of_nat i < 2 ^ 24) by lia.
  split; [lia|].
  pose proof (lookup_odometer (Z.of_nat i) Hb) as Hl.
  rewrite Nat2Z.id in Hl. congruence.
Qed.

Lemma NoDup_odometer : NoDup odometer.
Proof.
  apply NoDup_alt. intros i j c Hi Hj.
  apply lookup_odometer_nat in Hi, Hj.
  destruct Hi as [Hi Ei], Hj as [Hj Ej].
  assert (E : Z.of_nat i = Z.of_nat j).
  { apply rgb_of_index_inj; [lia | lia | congruence]. }
  lia.
Qed.

Lemma odometer_complete (c : RGB) : rgb_valid c <-> c ∈ odometer.
Proof.
  split.
  - intros (Hr & Hg & Hb). apply list_elem_of_lookup.
    exists (Z.to_nat (r c * 65536 + g c * 256 + b c)).
    rewrite lookup_odometer by lia. f_equal.
    destruct c as [r0 g0 b0]. unfold rgb_of_index. cbn [r g b] in *.
    f_equal; Z.div_mod_to_equations; lia.
  - intros Hc. apply list_elem_of_lookup in Hc. destruct Hc as [i Hi].
    apply lookup_odometer_nat in Hi. destruct Hi as [Hi ->].
    apply rgb_of_index_valid. lia.
Qed.

(** With the body that records its argument, feeding a list appends it. *)
Lemma feed_log_enqueue (l acc : list RGB) :
  feed log_enqueue l acc = acc ++ l.
Proof.
  unfold feed. revert acc. induction l as [|c l IH]; intros acc; cbn [foldl].
  - rewrite app_nil_r. reflexivity.
  - rewrite IH. unfold log_enqueue. rewrite <- app_assoc. reflexivity.
Qed.

(** C8: one pass of the producer's loop nest, started at (0, 0, 0), hands
    to [enqueue] every one of the 2^24 triplets exactly once, in odometer
    order: position [n] holds the triplet whose base-256 digits are those
    of [n], [b] being the last digit, so each step advances [b], a field
    that was 255 goes to 0 and advances the field before it, and the pass
    ends, after the 2^24 triplets, when [r] has gone back to 0. *)
Theorem producer_enumerates_odometer :
  producer_pass log_enqueue 256 [] = Some (rgb_zero, odometer) /\
  Z.of_nat (length odometer) = 2 ^ 24 /\
  odometer !! 0%nat = Some (mkRGB 0 0 0) /\
  (forall n : Z, 0 <= n < 2 ^ 24 ->
     odometer !! Z.to_nat n = Some (rgb_of_index n)) /\
  (forall n : Z, 0 <= n -> n + 1 < 2 ^ 24 ->
     rgb_of_index (n + 1) = odometer_succ (rgb_of_index n)) /\
  odometer_succ (rgb_of_index (2 ^ 24 - 1)) = mkRGB 0 0 0 /\
  NoDup odometer /\
  (forall c : RGB, rgb_valid c <-> c ∈ odometer).
Proof.
  split.
  { rewrite producer_pass_feeds_odometer by lia.
    rewrite feed_log_enqueue, app_nil_l. reflexivity. }
  split; [exact length_odometer|].
  split; [exact (lookup_odometer 0 ltac:(lia))|].
  split; [exact lookup_odometer|].
  split; [exact rgb_of_index_succ|].
  split; [reflexivity|].
  split; [exact NoDup_odometer | exact odometer_complete].
Qed.

End Odometer.

(** ** Invariants of the shared state *)

Section SharedState.

Lemma ISR_wf (s : State) : wf s -> wf (fst (ISR_TIMER0_OVF s)).
Proof.
  intros Hwf. unfold ISR_TIMER0_OVF.
  destruct (enable_consumer s =? 0); [exact Hwf|].
  destruct (_ >=? _).
  - destruct (empty _ =? 0).
    + cbn [fst dequeue]. destruct Hwf as [Hq Hh Ht He Hm Hc Hce].
      split; cbn; try assumption; try lia.
      unfold wrap8, NELEMS_queue in *.
      pose proof (Z.mod_pos_bound (head s + 1) 128 ltac:(lia)).
      rewrite Z.mod_small; lia.
    + cbn [fst]. destruct Hwf as [Hq Hh Ht He Hm Hc Hce].
      split; cbn; try assumption; try lia. apply wrap8_bounds.
  - cbn [fst]. destruct Hwf as [Hq Hh Ht He Hm Hc Hce].
    split; cbn; try assumption. apply wrap8_bounds.
Qed.

Lemma step_wf (e : Event) (s s' : State) :
  wf s -> step e s = Some s' -> wf s'.
Proof.
  intros Hwf Hs. destruct e as [|rgb|]; cbn [step] in Hs.
  - destruct (full s =? 0); [discriminate|]. inversion Hs; subst.
    destruct Hwf. split; cbn; try assumption; lia.
  - destruct (full s =? 0); [|discriminate]. inversion Hs; subst.
    apply enqueue_wf, Hwf.
  - inversion Hs; subst. apply ISR_wf, Hwf.
Qed.

Lemma length_contents (s : State) :
  Z.of_nat (length (contents s)) = count s.
Proof.
  unfold contents. rewrite length_map, length_seq.
  pose proof (count_bounds s). lia.
Qed.

(** X2: each side writes only its own variables.  The interrupt routine
    never changes [tail], the array or [consume_every_modifier]; [enqueue]
    never changes [head], [enable_consumer], [cycle], [consume_every] or
    [consume_every_modifier]. *)
Theorem single_writer (s : State) :
  (tail (fst (ISR_TIMER0_OVF s)) = tail s /\
   queue (fst (ISR_TIMER0_OVF s)) = queue s /\
   consume_every_modifier (fst (ISR_TIMER0_OVF s))
     = consume_every_modifier s) /\
  (forall rgb : RGB,
     head (enqueue rgb s) = head s /\
     enable_consumer (enqueue rgb s) = enable_consumer s /\
     cycle (enqueue rgb s) = cycle s /\
     consume_every (enqueue rgb s) = consume_every s /\
     consume_every_modifier (enqueue rgb s) = consume_every_modifier s).
Proof.
  split.
  - unfold ISR_TIMER0_OVF.
    destruct (enable_consumer s =? 0); [repeat split|].
    destruct (_ >=? _); [|repeat split].
    destruct (empty _ =? 0); repeat split.
  - intros rgb. repeat split.
Qed.

(** X3: the guard [!empty()] keeps the interrupt routine from calling
    [dequeue] on an empty buffer: whenever the buffer is empty a tick
    leaves [head] where it is and sends no [Consumed] line. *)
Theorem tick_never_dequeues_empty (s : State) :
  empty s = 1 ->
  head (fst (ISR_TIMER0_OVF s)) = head s /\ dequeue_at 1 s = false.
Proof.
  intros Hem. unfold dequeue_at, report_at. cbn [pred].
  rewrite state_after_0.
  destruct (Z.eq_dec (enable_consumer s) 0) as [He|He].
  - rewrite ISR_disabled by exact He. split; reflexivity.
  - destruct (Z_lt_le_dec (wrap8 (cycle s + 1)) (threshold s)) as [Hlt|Hge].
    + rewrite ISR_waiting by assumption. split; reflexivity.
    + rewrite ISR_underrun by assumption. split; reflexivity.
Qed.

Lemma tick_never_dequeues_empty_witness :
  empty underrun_at_1 = 1 /\
  head (fst (ISR_TIMER0_OVF underrun_at_1)) = head underrun_at_1 /\
  dequeue_at 1 underrun_at_1 = false.
Proof.
  exact (conj eq_refl (tick_never_dequeues_empty underrun_at_1 eq_refl)).
Defined.

(** X4: [enqueue] on a full buffer, which its contract forbids, makes the
    buffer empty: [tail] lands on [head] and the 127 waiting records are
    out of reach. *)
Theorem enqueue_on_full_loses_all (rgb : RGB) (s : State) :
  wf s -> full s = 1 ->
  length (contents s) = 127%nat /\
  empty (enqueue rgb s) = 1 /\ contents (enqueue rgb s) = [].
Proof.
  intros Hwf Hf.
  pose proof (proj1 (count_full s Hwf) Hf) as Hc.
  pose proof (length_contents s) as Hl.
  assert (He : empty (enqueue rgb s) = 1).
  { apply empty_1. apply full_1 in Hf. destruct Hwf as [_ Hh Ht _ _ _ _].
    unfold enqueue, wrap8, NELEMS_queue in *. cbn.
    rewrite Hf. symmetry. apply Z.mod_small.
    pose proof (Z.mod_pos_bound (tail s + 1) 128 ltac:(lia)). lia. }
  split; [lia|]. split; [exact He|]. apply contents_empty, He.
Qed.

Lemma full_buffer_wf : wf full_buffer.
Proof. split; simpl; unfold NELEMS_queue; first [reflexivity | lia]. Qed.

Lemma enqueue_on_full_loses_all_witness :
  wf full_buffer /\ full full_buffer = 1 /\
  length (contents full_buffer) = 127%nat /\
  empty (enqueue (mkRGB 1 2 3) full_buffer) = 1 /\
  contents (enqueue (mkRGB 1 2 3) full_buffer) = [].
Proof.
  exact (conj full_buffer_wf (conj eq_refl
           (enqueue_on_full_loses_all (mkRGB 1 2 3) full_buffer
              full_buffer_wf eq_refl))).
Defined.

(** X5: [dequeue] on an empty buffer, which its contract forbids, returns
    the stale record under [head] and makes the buffer full: 127 stale
    slots are now waiting. *)
Theorem dequeue_on_empty_fills (s : State) :
  wf s -> empty s = 1 ->
  fst (dequeue s) = slot s (head s) /\
  full (snd (dequeue s)) = 1 /\
  length (contents (snd (dequeue s))) = 127%nat.
Proof.
  intros Hwf He. pose proof (dequeue_wf s Hwf) as Hwf'.
  assert (Hc : count (snd (dequeue s)) = 127).
  { apply empty_1 in He. destruct Hwf as [_ Hh Ht _ _ _ _].
    unfold count, dequeue, wrap8, NELEMS_queue in *. cbn.
    Z.div_mod_to_equations. lia. }
  split; [reflexivity|]. split; [apply (count_full _ Hwf'), Hc|].
  pose proof (length_contents (snd (dequeue s))). lia.
Qed.

Lemma dequeue_on_empty_fills_witness :
  wf initial_state /\ empty initial_state = 1 /\
  fst (dequeue initial_state) = slot initial_state (head initial_state) /\
  full (snd (dequeue initial_state)) = 1 /\
  length (contents (snd (dequeue initial_state))) = 127%nat.
Proof.
  exact (conj initial_state_wf (conj eq_refl
           (dequeue_on_empty_fills initial_state initial_state_wf eq_refl))).
Defined.

End SharedState.

(** ** The producer and the consumer together *)

Section EndToEnd.

(** What is waiting depends on the array and the two cursors only. *)
Lemma contents_ext (s1 s2 : State) :
  queue s1 = queue s2 -> head s1 = head s2 -> tail s1 = tail s2 ->
  contents s1 = contents s2.
Proof.
  intros Hq Hh Ht. unfold contents, count, slot. rewrite Hq, Hh, Ht.
  reflexivity.
Qed.

(** A tick that sends a [Consumed] line delivers the oldest waiting record
    and leaves the others waiting; any other tick leaves them all. *)
Lemma ISR_contents (s : State) :
  wf s ->
  consumed_of (reports_of EvTick s) ++ contents (fst (ISR_TIMER0_OVF s))
    = contents s.
Proof.
  intros Hwf. cbn [reports_of].
  destruct (Z.eq_dec (enable_consumer s) 0) as [He|He].
  { rewrite ISR_disabled by exact He. reflexivity. }
  destruct (Z_lt_le_dec (wrap8 (cycle s + 1)) (threshold s)) as [Hlt|Hge].
  { rewrite ISR_waiting by assumption. apply contents_ext; reflexivity. }
  destruct (empty_cases s) as [Hne|Hem].
  - rewrite ISR_drain by assumption. cbn [fst snd consumed_of flat_map app].
    rewrite (contents_dequeue s Hwf Hne). f_equal.
  - rewrite ISR_underrun by assumption. apply contents_ext; reflexivity.
Qed.

Lemma consumed_of_app (rs1 rs2 : list Report) :
  consumed_of (rs1 ++ rs2) = consumed_of rs1 ++ consumed_of rs2.
Proof. unfold consumed_of. apply flat_map_app. Qed.

Lemma step_contents (e : Event) (s s' : State) :
  wf s -> step e s = Some s' ->
  consumed_of (reports_of e s) ++ contents s'
    = contents s ++ produced_of [e].
Proof.
  intros Hwf Hs. destruct e as [|rgb|]; cbn [step] in Hs.
  - destruct (full s =? 0); [discriminate|]. inversion Hs; subst.
    cbn. rewrite app_nil_r. apply contents_ext; reflexivity.
  - destruct (full s =? 0) eqn:Hf; [|discriminate]. inversion Hs; subst.
    apply Z.eqb_eq in Hf. cbn. apply contents_enqueue; assumption.
  - inversion Hs; subst. rewrite (ISR_contents s Hwf). cbn.
    rewrite app_nil_r. reflexivity.
Qed.

(** Step by step: what has been sent and what is waiting account for
    everything that was waiting or has been enqueued. *)
Lemma run_events_log_contents (es : list Event) :
  forall (s s' : State) (rs : list Report),
    wf s -> run_events_log es s = Some (s', rs) ->
    wf s' /\
    consumed_of rs ++ contents s' = contents s ++ produced_of es.
Proof.
  induction es as [|e es IH]; intros s s' rs Hwf Hr;
    cbn [run_events_log] in Hr.
  - inversion Hr; subst. split; [exact Hwf|].
    cbn. rewrite app_nil_r. reflexivity.
  - destruct (step e s) as [s1|] eqn:Hs; [|discriminate].
    destruct (run_events_log es s1) as [[s2 rs1]|] eqn:Hr1; [|discriminate].
    inversion Hr; subst.
    destruct (IH s1 s' rs1 (step_wf e s s1 Hwf Hs) Hr1) as [Hwf' Heq].
    split; [exact Hwf'|].
    rewrite consumed_of_app, <- app_assoc, Heq, app_assoc.
    rewrite (step_contents e s s1 Hwf Hs), <- app_assoc.
    f_equal. change (e :: es) with ([e] ++ es).
    unfold produced_of. rewrite flat_map_app. reflexivity.
Qed.

Lemma period_3_wf : wf period_3.
Proof.
  split; vm_compute; first [reflexivity | split; [discriminate | reflexivity]].
Qed.

(** X6: for every interleaving of the producer's steps and timer ticks,
    the triplets named in the [Consumed] lines, followed by what is still
    waiting, are what was waiting at the start followed by what [main]
    enqueued: records reach the sink in the order produced, none lost and
    none sent twice. *)
Theorem end_to_end_fifo (es : list Event) (s s' : State) (rs : list Report) :
  wf s -> run_events_log es s = Some (s', rs) ->
  consumed_of rs ++ contents s' = contents s ++ produced_of es.
Proof.
  intros Hwf Hr. exact (proj2 (run_events_log_contents es s s' rs Hwf Hr)).
Qed.

Lemma end_to_end_fifo_witness :
  wf period_3 /\
  run_events_log sample_events period_3
    = Some (fst sample_events_result, snd sample_events_result) /\
  snd sample_events_result = [Consumed (mkRGB 1 2 3) 3] /\
  consumed_of (snd sample_events_result)
    ++ contents (fst sample_events_result)
    = contents period_3 ++ produced_of sample_events.
Proof.
  assert (Hr : run_events_log sample_events period_3
               = Some (fst sample_events_result, snd sample_events_result))
    by (vm_compute; reflexivity).
  assert (Hs : snd sample_events_result = [Consumed (mkRGB 1 2 3) 3])
    by (vm_compute; reflexivity).
  exact (conj period_3_wf (conj Hr (conj Hs
           (end_to_end_fifo sample_events period_3 _ _ period_3_wf Hr)))).
Defined.

Lemma ticks_disabled (n : nat) (s : State) :
  enable_consumer s = 0 -> state_after n s = s.
Proof.
  intros He. induction n as [|n IH]; [reflexivity|].
  rewrite state_after_last, IH, ISR_disabled by exact He. reflexivity.
Qed.

(** X7: the consumer does nothing until the producer has seen the buffer
    full.  From a state with [enable_consumer = 0], a run in which the spin
    loop's store never executes sends nothing and leaves [enable_consumer],
    [head], [cycle] and [consume_every] as they were, however many
    records are enqueued and however many ticks pass. *)
Theorem idle_until_full_seen (es : list Event) (s s' : State)
    (rs : list Report) :
  enable_consumer s = 0 -> ~ In EvSpin es ->
  run_events_log es s = Some (s', rs) ->
  rs = [] /\ enable_consumer s' = 0 /\ head s' = head s /\
  cycle s' = cycle s /\ consume_every s' = consume_every s.
Proof.
  revert s s' rs. induction es as [|e es IH]; intros s s' rs He Hno Hr;
    cbn [run_events_log] in Hr.
  - inversion Hr; subst. repeat split. exact He.
  - destruct (step e s) as [s1|] eqn:Hs; [|discriminate].
    destruct (run_events_log es s1) as [[s2 rs1]|] eqn:Hr1; [|discriminate].
    inversion Hr; subst. clear Hr.
    assert (Hno' : ~ In EvSpin es) by (intros H; apply Hno; right; exact H).
    destruct e as [|rgb|]; cbn [step] in Hs.
    + exfalso. apply Hno. left. reflexivity.
    + destruct (full s =? 0); [|discriminate]. inversion Hs; subst.
      destruct (IH (enqueue rgb s) _ _ He Hno' Hr1)
        as (H1 & H2 & H3 & H4 & H5).
      subst rs1. repeat split; assumption.
    + inversion Hs; subst. cbn [reports_of] in *.
      rewrite ISR_disabled in * by exact He. cbn [fst snd] in *.
      destruct (IH _ _ _ He Hno' Hr1) as (H1 & H2 & H3 & H4 & H5).
      subst rs1. repeat split; assumption.
Qed.

Lemma idle_until_full_seen_witness :
  enable_consumer initial_state = 0 /\
  ~ In EvSpin [EvEnqueue (mkRGB 1 2 3); EvTick] /\
  run_events_log [EvEnqueue (mkRGB 1 2 3); EvTick] initial_state
    = Some (one_waiting, []) /\
  @nil Report = [] /\ enable_consumer one_waiting = 0 /\
  head one_waiting = head initial_state /\
  cycle one_waiting = cycle initial_state /\
  consume_every one_waiting = consume_every initial_state.
Proof.
  assert (Hno : ~ In EvSpin [EvEnqueue (mkRGB 1 2 3); EvTick]).
  { intros [H|[H|[]]]; discriminate. }
  assert (Hr : run_events_log [EvEnqueue (mkRGB 1 2 3); EvTick] initial_state
               = Some (one_waiting, [])) by (vm_compute; reflexivity).
  exact (conj eq_refl (conj Hno (conj Hr
           (idle_until_full_seen _ initial_state one_waiting [] eq_refl Hno Hr)))).
Defined.

Lemma run_events_log_ticks (n : nat) (s : State) :
  run_events_log (replicate n EvTick) s
    = Some (state_after n s, reports_sent (snd (run_ticks n s))).
Proof.
  revert s. induction n as [|n IH]; intros s; [reflexivity|].
  cbn [replicate run_events_log step]. rewrite IH, state_after_S.
  cbn [reports_of run_ticks].
  destruct (ISR_TIMER0_OVF s) as [s1 o]. cbn [fst snd].
  destruct (run_ticks n s1) as [s2 os]. cbn [snd reports_sent flat_map].
  destruct o; reflexivity.
Qed.

Lemma produced_of_ticks (n : nat) : produced_of (replicate n EvTick) = [].
Proof. induction n as [|n IH]; [reflexivity|]. cbn. exact IH. Qed.

(** X8: with the consumer enabled, [cycle = 0] and a threshold [T] in
    [1, 255], [n * T] ticks with nothing enqueued meanwhile, [n] being the
    number of waiting records, send exactly the waiting records, oldest
    first, and leave the buffer empty with [cycle = 0]. *)
Theorem drain_in_order (s : State) :
  wf s -> enable_consumer s <> 0 -> cycle s = 0 ->
  1 <= threshold s <= 255 ->
  consumed_of (reports_sent (snd (run_ticks
     (Z.to_nat (count s) * Z.to_nat (threshold s)) s))) = contents s /\
  empty (state_after (Z.to_nat (count s) * Z.to_nat (threshold s)) s) = 1 /\
  cycle (state_after (Z.to_nat (count s) * Z.to_nat (threshold s)) s) = 0.
Proof.
  intros Hwf He Hc HT. pose proof (count_bounds s) as Hb.
  destruct (drain_all (Z.to_nat (count s)) s Hwf He Hc HT ltac:(lia))
    as (Hwf' & Hem & Hcy & _).
  split; [|split; assumption].
  pose proof (run_events_log_ticks
                (Z.to_nat (count s) * Z.to_nat (threshold s)) s) as Hr.
  destruct (run_events_log_contents _ _ _ _ Hwf Hr) as [_ Heq].
  rewrite (contents_empty _ Hem), produced_of_ticks, !app_nil_r in Heq.
  exact Heq.
Qed.

Lemma drain_in_order_witness :
  wf period_3 /\ enable_consumer period_3 <> 0 /\ cycle period_3 = 0 /\
  1 <= threshold period_3 <= 255 /\
  consumed_of (reports_sent (snd (run_ticks
     (Z.to_nat (count period_3) * Z.to_nat (threshold period_3)) period_3)))
    = contents period_3 /\
  empty (state_after
     (Z.to_nat (count period_3) * Z.to_nat (threshold period_3)) period_3) = 1 /\
  cycle (state_after
     (Z.to_nat (count period_3) * Z.to_nat (threshold period_3)) period_3) = 0.
Proof.
  assert (He : enable_consumer period_3 <> 0) by discriminate.
  assert (HT : 1 <= threshold period_3 <= 255)
    by (vm_compute; split; discriminate).
  exact (conj period_3_wf (conj He (conj eq_refl (conj HT
           (drain_in_order period_3 period_3_wf He eq_refl HT))))).
Defined.

Lemma full_ext (s1 s2 : State) :
  head s1 = head s2 -> tail s1 = tail s2 -> full s1 = full s2.
Proof. intros Hh Ht. unfold full. rewrite Hh, Ht. reflexivity. Qed.

(** X9: once the buffer is full while
    [consume_every + consume_every_modifier] exceeds 255, nothing moves
    any more: in every run of spins, enqueue attempts and ticks that
    follows, no record is enqueued, [head], [tail] and the array stay as
    they are and the buffer stays full, so the producer spins for ever. *)
Theorem full_with_wide_threshold_blocks (es : list Event) (s s' : State) :
  full s = 1 -> 255 < threshold s ->
  run_events es s = Some s' ->
  produced_of es = [] /\ full s' = 1 /\ head s' = head s /\
  tail s' = tail s /\ queue s' = queue s /\ threshold s' = threshold s.
Proof.
  revert s. induction es as [|e es IH]; intros s Hf HT Hr;
    cbn [run_events] in Hr.
  - inversion Hr; subst. repeat split. exact Hf.
  - destruct (step e s) as [s1|] eqn:Hs; [|discriminate].
    assert (H1 : produced_of [e] = [] /\ full s1 = 1 /\ head s1 = head s /\
                 tail s1 = tail s /\ queue s1 = queue s /\
                 threshold s1 = threshold s).
    { destruct e as [|rgb|]; cbn [step] in Hs.
      - destruct (full s =? 0); [discriminate|]. inversion Hs; subst.
        repeat split. exact Hf.
      - rewrite Hf in Hs. discriminate.
      - inversion Hs; subst. clear Hs.
        destruct (Z.eq_dec (enable_consumer s) 0) as [He|He].
        + rewrite ISR_disabled by exact He. repeat split. exact Hf.
        + pose proof (wrap8_bounds (cycle s + 1)).
          rewrite ISR_waiting by (try assumption; lia).
          repeat split. exact Hf. }
    destruct H1 as (Hp & Hf1 & Hh1 & Ht1 & Hq1 & HT1).
    destruct (IH s1 Hf1 ltac:(lia) Hr) as (Hp' & Hf' & Hh' & Ht' & Hq' & HT').
    change (e :: es) with ([e] ++ es). unfold produced_of in *.
    rewrite flat_map_app, Hp, Hp'.
    repeat split; try assumption; congruence.
Qed.

Lemma full_with_wide_threshold_blocks_witness :
  full full_stuck = 1 /\ 255 < threshold full_stuck /\
  run_events [EvSpin; EvTick; EvTick; EvSpin] full_stuck
    = Some (set_cycle 2 full_stuck) /\
  produced_of [EvSpin; EvTick; EvTick; EvSpin] = [] /\
  full (set_cycle 2 full_stuck) = 1 /\
  head (set_cycle 2 full_stuck) = head full_stuck /\
  tail (set_cycle 2 full_stuck) = tail full_stuck /\
  queue (set_cycle 2 full_stuck) = queue full_stuck /\
  threshold (set_cycle 2 full_stuck) = threshold full_stuck.
Proof.
  assert (Hr : run_events [EvSpin; EvTick; EvTick; EvSpin] full_stuck
               = Some (set_cycle 2 full_stuck)) by (vm_compute; reflexivity).
  exact (conj eq_refl (conj eq_refl (conj Hr
           (full_with_wide_threshold_blocks _ full_stuck _ eq_refl eq_refl Hr)))).
Defined.

Lemma full_enabled_wf : wf full_enabled.
Proof.
  split; vm_compute; first [reflexivity | split; [discriminate | reflexivity]].
Qed.

(** X10: a full buffer with the consumer enabled, [cycle = 0] and a
    threshold [T] in [1, 255] stays full for [T - 1] ticks and has room
    after tick [T]: 126 records are waiting and [full()] returns 0, so the
    producer's spin loop ends. *)
Theorem full_buffer_gets_room (s : State) :
  wf s -> full s = 1 -> enable_consumer s <> 0 -> cycle s = 0 ->
  1 <= threshold s <= 255 ->
  (forall k : nat, Z.of_nat k < threshold s -> full (state_after k s) = 1) /\
  full (state_after (Z.to_nat (threshold s)) s) = 0 /\
  length (contents (state_after (Z.to_nat (threshold s)) s)) = 126%nat.
Proof.
  intros Hwf Hf He Hc HT.
  pose proof (proj1 (count_full s Hwf) Hf) as Hn.
  assert (Hne : empty s = 0).
  { destruct (empty_cases s) as [H|H]; [exact H|].
    apply (count_0 s Hwf) in H. lia. }
  split.
  - intros k Hk. rewrite ticks_waiting by (try assumption; lia).
    rewrite <- Hf. apply full_ext; reflexivity.
  - destruct (ticks_period s He Hc Hne HT) as [Hs _]. rewrite Hs.
    set (s1 := set_head ((head s + 1) mod NELEMS_queue) (set_cycle 0 s)).
    assert (Hwf1 : wf s1).
    { destruct Hwf. split; cbn; try assumption; try lia.
      apply Z.mod_pos_bound. unfold NELEMS_queue. lia. }
    assert (Hn1 : count s1 = 126).
    { apply empty_0 in Hne. destruct Hwf as [_ Hh Ht _ _ _ _].
      unfold count, NELEMS_queue in *. cbn [head tail s1 set_head set_cycle].
      Z.div_mod_to_equations. lia. }
    split.
    + destruct (full_cases s1) as [H|H]; [exact H|].
      apply (count_full s1 Hwf1) in H. lia.
    + pose proof (length_contents s1). lia.
Qed.

Lemma full_buffer_gets_room_witness :
  wf full_enabled /\ full full_enabled = 1 /\
  enable_consumer full_enabled <> 0 /\ cycle full_enabled = 0 /\
  1 <= threshold full_enabled <= 255 /\
  (forall k : nat, Z.of_nat k < threshold full_enabled ->
     full (state_after k full_enabled) = 1) /\
  full (state_after (Z.to_nat (threshold full_enabled)) full_enabled) = 0 /\
  length (contents
    (state_after (Z.to_nat (threshold full_enabled)) full_enabled)) = 126%nat.
Proof.
  assert (He : enable_consumer full_enabled <> 0) by discriminate.
  assert (HT : 1 <= threshold full_enabled <= 255)
    by (vm_compute; split; discriminate).
  exact (conj full_enabled_wf (conj eq_refl (conj He (conj eq_refl (conj HT
           (full_buffer_gets_room full_enabled full_enabled_wf eq_refl He
              eq_refl HT)))))).
Defined.

(** A tick on which the comparison succeeds sends a line and leaves
    [cycle] at 0. *)
Lemma ISR_attempt (s : State) :
  enable_consumer s <> 0 -> threshold s <= wrap8 (cycle s + 1) ->
  snd (ISR_TIMER0_OVF s) <> None /\ cycle (fst (ISR_TIMER0_OVF s)) = 0.
Proof.
  intros He Hge. destruct (empty_cases s) as [H|H].
  - rewrite ISR_drain by assumption. split; [discriminate | reflexivity].
  - rewrite ISR_underrun by assumption. split; [discriminate | reflexivity].
Qed.

(** Counting up from below the threshold ends in a drain attempt. *)
Lemma attempt_after_waiting (s : State) :
  enable_consumer s <> 0 -> 0 <= cycle s < threshold s ->
  threshold s <= 255 ->
  report_at (Z.to_nat (threshold s - cycle s)) s <> None /\
  cycle (state_after (Z.to_nat (threshold s - cycle s)) s) = 0.
Proof.
  intros He Hc HT.
  assert (Hw : state_after (pred (Z.to_nat (threshold s - cycle s))) s
               = set_cycle (threshold s - 1) s).
  { rewrite ticks_waiting by (try assumption; lia). f_equal. lia. }
  assert (Ha : snd (ISR_TIMER0_OVF (set_cycle (threshold s - 1) s)) <> None /\
               cycle (fst (ISR_TIMER0_OVF (set_cycle (threshold s - 1) s))) = 0).
  { apply ISR_attempt; cbn [cycle set_cycle enable_consumer]; [exact He|].
    replace (threshold s - 1 + 1) with (threshold s) by lia.
    rewrite wrap8_small by lia. unfold threshold.
    cbn [consume_every consume_every_modifier set_cycle]. lia. }
  split.
  - unfold report_at. rewrite Hw. apply Ha.
  - replace (Z.to_nat (threshold s - cycle s))
      with (S (pred (Z.to_nat (threshold s - cycle s)))) by lia.
    rewrite state_after_last, Hw. apply Ha.
Qed.

(** X17: a bound on the wait.  With the consumer enabled and
    [consume_every + consume_every_modifier] at most 255, whatever byte
    value [cycle] has, one of the next 256 ticks attempts a drain (it
    sends a line) and leaves [cycle] at 0. *)
Theorem drain_attempt_within_256_ticks (s : State) :
  wf s -> enable_consumer s <> 0 -> threshold s <= 255 ->
  exists k : nat,
    (1 <= k <= 256)%nat /\ report_at k s <> None /\
    cycle (state_after k s) = 0.
Proof.
  intros Hwf He HT.
  assert (Hc : 0 <= cycle s < 256) by (destruct Hwf; assumption).
  assert (H0 : 0 <= threshold s)
    by (destruct Hwf; unfold threshold; lia).
  destruct (Z_lt_le_dec (wrap8 (cycle s + 1)) (threshold s)) as [Hlt|Hge].
  - destruct (Z.eq_dec (cycle s) 255) as [E|E].
    + (* the counter wraps to 0 and counts up again *)
      assert (H1 : state_after 1 s = set_cycle 0 s).
      { rewrite state_after_last, state_after_0, ISR_waiting by assumption.
        rewrite E. reflexivity. }
      rewrite E in Hlt. change (wrap8 (255 + 1)) with 0 in Hlt.
      assert (Hc0 : 0 <= cycle (set_cycle 0 s) < threshold (set_cycle 0 s)).
      { change (0 <= 0 < threshold s). lia. }
      destruct (attempt_after_waiting (set_cycle 0 s) He Hc0 HT) as [Hr Hcy].
      change (threshold (set_cycle 0 s) - cycle (set_cycle 0 s))
        with (threshold s - 0) in Hr, Hcy.
      rewrite Z.sub_0_r in Hr, Hcy.
      exists (1 + Z.to_nat (threshold s))%nat. split; [lia|]. split.
      * unfold report_at in *. cbn [pred Nat.add].
        replace (Z.to_nat (threshold s))
          with (1 + pred (Z.to_nat (threshold s)))%nat by lia.
        rewrite state_after_add, H1. exact Hr.
      * rewrite state_after_add, H1. exact Hcy.
    + rewrite wrap8_small in Hlt by lia.
      destruct (attempt_after_waiting s He ltac:(lia) HT) as [Hr Hcy].
      exists (Z.to_nat (threshold s - cycle s)).
      split; [lia|]. split; assumption.
  - exists 1%nat. split; [lia|].
    unfold report_at. cbn [pred].
    rewrite state_after_last, state_after_0.
    apply ISR_attempt; assumption.
Qed.

Lemma drain_attempt_within_256_ticks_witness :
  wf period_3 /\ enable_consumer period_3 <> 0 /\
  threshold period_3 <= 255 /\
  exists k : nat,
    (1 <= k <= 256)%nat /\ report_at k period_3 <> None /\
    cycle (state_after k period_3) = 0.
Proof.
  assert (He : enable_consumer period_3 <> 0) by discriminate.
  assert (HT : threshold period_3 <= 255) by (vm_compute; discriminate).
  exact (conj period_3_wf (conj He (conj HT
           (drain_attempt_within_256_ticks period_3 period_3_wf He HT)))).
Defined.

(** X12: an underrun and what follows it.  With the consumer enabled on an
    empty buffer, [cycle = 0] and a threshold [T] in [1, 255], the ticks
    before [T] send nothing, tick [T] sends the [QueueEmpty] line, and
    from then on, as long as the producer has not seen the buffer full
    again, ticks change nothing: [consume_every] has gone up once (as a
    byte), [enable_consumer] and [cycle] are 0. *)
Theorem underrun_then_idle (s : State) (n : nat) :
  enable_consumer s <> 0 -> cycle s = 0 -> empty s = 1 ->
  1 <= threshold s <= 255 ->
  (forall k : nat, (1 <= k)%nat -> Z.of_nat k < threshold s ->
     report_at k s = None) /\
  report_at (Z.to_nat (threshold s)) s
    = Some (QueueEmpty (wrap8 (consume_every s + 1))) /\
  state_after (Z.to_nat (threshold s) + n) s =
    set_enable_consumer 0
      (set_consume_every (wrap8 (consume_every s + 1)) (set_cycle 0 s)).
Proof.
  intros He Hc Hem HT. split; [|split].
  - intros k Hk Hlt. apply report_waiting; try assumption; lia.
  - unfold report_at. rewrite ticks_waiting by (try assumption; lia).
    rewrite ISR_underrun; cbn [cycle set_cycle enable_consumer];
      try assumption; [reflexivity|].
    rewrite Hc. replace (0 + Z.of_nat (pred (Z.to_nat (threshold s))) + 1)
      with (threshold s) by lia.
    rewrite wrap8_small by lia. unfold threshold.
    cbn [consume_every consume_every_modifier set_cycle]. lia.
  - rewrite state_after_add, (ticks_underrun s He Hc Hem HT).
    apply ticks_disabled. reflexivity.
Qed.

Lemma underrun_then_idle_witness :
  enable_consumer underrun_at_1 <> 0 /\ cycle underrun_at_1 = 0 /\
  empty underrun_at_1 = 1 /\ 1 <= threshold underrun_at_1 <= 255 /\
  (forall k : nat, (1 <= k)%nat -> Z.of_nat k < threshold underrun_at_1 ->
     report_at k underrun_at_1 = None) /\
  report_at (Z.to_nat (threshold underrun_at_1)) underrun_at_1
    = Some (QueueEmpty (wrap8 (consume_every underrun_at_1 + 1))) /\
  state_after (Z.to_nat (threshold underrun_at_1) + 40) underrun_at_1 =
    set_enable_consumer 0
      (set_consume_every (wrap8 (consume_every underrun_at_1 + 1))
         (set_cycle 0 underrun_at_1)).
Proof.
  assert (He : enable_consumer underrun_at_1 <> 0) by discriminate.
  assert (HT : 1 <= threshold underrun_at_1 <= 255)
    by (vm_compute; split; discriminate).
  exact (conj He (conj eq_refl (conj eq_refl (conj HT
           (underrun_then_idle underrun_at_1 40 He eq_refl eq_refl HT))))).
Defined.

(** X13: one round of self-calibration.  From an empty buffer with
    [cycle = 0], no modifier and [consume_every = c] between 1 and 254, if
    the producer enqueues 127 records, sees the buffer full and then
    stalls for [128 * c] ticks, the consumer takes every record and then
    underruns: the buffer is empty again, [cycle] is 0 and
    [consume_every] is [c + 1]. *)
Theorem stalled_round_lengthens_period (c : Z) (s : State) :
  wf s -> empty s = 1 -> cycle s = 0 -> consume_every_modifier s = 0 ->
  consume_every s = c -> 1 <= c <= 254 ->
  exists s', run_events (round_events c) s = Some s' /\
             wf s' /\ empty s' = 1 /\ cycle s' = 0 /\
             consume_every_modifier s' = 0 /\ consume_every s' = c + 1.
Proof. apply round_reaches. Qed.

Lemma stalled_round_lengthens_period_witness :
  wf initial_state /\ empty initial_state = 1 /\ cycle initial_state = 0 /\
  consume_every_modifier initial_state = 0 /\
  consume_every initial_state = 1 /\ 1 <= 1 <= 254 /\
  exists s', run_events (round_events 1) initial_state = Some s' /\
             wf s' /\ empty s' = 1 /\ cycle s' = 0 /\
             consume_every_modifier s' = 0 /\ consume_every s' = 1 + 1.
Proof.
  assert (H1 : 1 <= 1 <= 254) by lia.
  exact (conj initial_state_wf (conj eq_refl (conj eq_refl (conj eq_refl
           (conj eq_refl (conj H1
              (stalled_round_lengthens_period 1 initial_state
                 initial_state_wf eq_refl eq_refl eq_refl eq_refl H1))))))).
Defined.

(** X16: the period is lengthened, and the consumer switched off, only on
    an underrun.  If a tick changes [consume_every] or [enable_consumer],
    then the consumer was enabled, the counter had reached the threshold
    and the buffer was empty, and the tick sent the [QueueEmpty] line. *)
Theorem period_changes_only_on_underrun (s : State) :
  consume_every (fst (ISR_TIMER0_OVF s)) <> consume_every s \/
  enable_consumer (fst (ISR_TIMER0_OVF s)) <> enable_consumer s ->
  enable_consumer s <> 0 /\ threshold s <= wrap8 (cycle s + 1) /\
  empty s = 1 /\
  snd (ISR_TIMER0_OVF s) = Some (QueueEmpty (wrap8 (consume_every s + 1))).
Proof.
  intros Hch.
  destruct (Z.eq_dec (enable_consumer s) 0) as [He|He].
  { rewrite ISR_disabled in Hch by exact He. cbn in Hch. tauto. }
  destruct (Z_lt_le_dec (wrap8 (cycle s + 1)) (threshold s)) as [Hlt|Hge].
  { rewrite ISR_waiting in Hch by assumption. cbn in Hch. tauto. }
  destruct (empty_cases s) as [Hne|Hem].
  { rewrite ISR_drain in Hch by assumption. cbn in Hch. tauto. }
  rewrite ISR_underrun by assumption. repeat split; assumption.
Qed.

Lemma period_changes_only_on_underrun_witness :
  (consume_every (fst (ISR_TIMER0_OVF underrun_at_1))
     <> consume_every underrun_at_1 \/
   enable_consumer (fst (ISR_TIMER0_OVF underrun_at_1))
     <> enable_consumer underrun_at_1) /\
  enable_consumer underrun_at_1 <> 0 /\
  threshold underrun_at_1 <= wrap8 (cycle underrun_at_1 + 1) /\
  empty underrun_at_1 = 1 /\
  snd (ISR_TIMER0_OVF underrun_at_1)
    = Some (QueueEmpty (wrap8 (consume_every underrun_at_1 + 1))).
Proof.
  assert (Hch : consume_every (fst (ISR_TIMER0_OVF underrun_at_1))
                  <> consume_every underrun_at_1 \/
                enable_consumer (fst (ISR_TIMER0_OVF underrun_at_1))
                  <> enable_consumer underrun_at_1)
    by (left; vm_compute; discriminate).
  exact (conj Hch (period_changes_only_on_underrun underrun_at_1 Hch)).
Defined.

End EndToEnd.

(** ** Serial output and the producer's delay *)

Section Plumbing.

Lemma USART_TransmitString_nonzero (txt : list Z) :
  forall line : list Z,
    Forall (fun c => c <> 0) txt ->
    forall rest : list Z,
      USART_TransmitString (txt ++ rest) line
        = USART_TransmitString rest (line ++ txt).
Proof.
  induction txt as [|c txt IH]; intros line Hnz rest.
  - rewrite app_nil_r. reflexivity.
  - inversion Hnz as [|? ? Hc Htxt]; subst.
    cbn [app USART_TransmitString]. apply Z.eqb_neq in Hc. rewrite Hc.
    rewrite (IH _ Htxt). unfold USART_Transmit.
    rewrite <- app_assoc. reflexivity.
Qed.

(** X14: [USART_TransmitString] puts on the line, in order and after what
    was sent before, exactly the bytes that precede the first zero byte,
    and nothing of what follows it. *)
Theorem USART_TransmitString_stops_at_nul (txt rest line : list Z) :
  Forall (fun c => c <> 0) txt ->
  USART_TransmitString (txt ++ 0 :: rest) line = line ++ txt.
Proof.
  intros Hnz. rewrite (USART_TransmitString_nonzero txt line Hnz).
  reflexivity.
Qed.

Lemma USART_TransmitString_stops_at_nul_witness :
  Forall (fun c => c <> 0) [79; 75; 10] /\
  USART_TransmitString ([79; 75; 10] ++ 0 :: [88; 0]) [62] = [62] ++ [79; 75; 10].
Proof.
  assert (Hnz : Forall (fun c => c <> 0) [79; 75; 10])
    by (repeat constructor; discriminate).
  exact (conj Hnz (USART_TransmitString_stops_at_nul
                     [79; 75; 10] [88; 0] [62] Hnz)).
Defined.

Lemma delay_loop_counts (k : nat) :
  forall (fuel : nat) (d calls : Z),
    d = Z.of_nat k -> d < 256 -> (k < fuel)%nat ->
    delay_loop fuel d calls = Some (255, calls + d).
Proof.
  induction k as [|k IH]; intros fuel d calls Hd Hlt Hf;
    (destruct fuel as [|fuel]; [lia|]); cbn [delay_loop].
  - subst d. cbn. rewrite Z.add_0_r. reflexivity.
  - destruct (Z.eqb_spec d 0) as [E|E]; [lia|].
    rewrite wrap8_small by lia.
    rewrite (IH fuel (d - 1) (calls + 1)) by lia.
    do 2 f_equal. lia.
Qed.

(** X15: the producer's delay.  For the non-negative number that
    [random()] returns, the loop calls [_delay_ms(1)] exactly
    [random() mod 16] times, at most 15, then stops, leaving
    [delay_in_ms] at 255 because the last [delay_in_ms--] wraps. *)
Theorem delay_is_random_mod_16 (rnd : Z) :
  0 <= rnd ->
  delay_loop 16 (delay_of_random rnd) 0 = Some (255, rnd mod 16) /\
  0 <= rnd mod 16 <= 15.
Proof.
  intros Hr. pose proof (Z.mod_pos_bound rnd 16 ltac:(lia)) as Hb.
  assert (Hd : delay_of_random rnd = rnd mod 16).
  { unfold delay_of_random. rewrite Z.rem_mod_nonneg by lia.
    apply wrap8_small. lia. }
  split; [|lia]. rewrite Hd.
  rewrite (delay_loop_counts (Z.to_nat (rnd mod 16))) by lia.
  reflexivity.
Qed.

Lemma delay_is_random_mod_16_witness :
  0 <= 1000003 /\
  delay_loop 16 (delay_of_random 1000003) 0 = Some (255, 1000003 mod 16) /\
  0 <= 1000003 mod 16 <= 15.
Proof.
  assert (Hr : 0 <= 1000003) by lia.
  exact (conj Hr (delay_is_random_mod_16 1000003 Hr)).
Defined.

End Plumbing.

(** ** Main and the interrupt routine on the serial line *)

Section SerialLine.







(** The interrupt taken in the middle of a guarded call is a schedule
    that cannot happen. *)
Example guarded_call_refuses_split :
  run_sink true split_schedule ([65; 66; 0], []) = None.
Proof. reflexivity. Qed.

End SerialLine.

(** ** The counter between two enablings *)

Section FreshPeriod.

(** Every step keeps [cycle] at 0 while the consumer is disabled: the
    routine stores 0 into [cycle] before it clears [enable_consumer]. *)
Lemma idle_cycle_step (e : Event) (s s' : State) :
  (enable_consumer s = 0 -> cycle s = 0) ->
  step e s = Some s' ->
  enable_consumer s' = 0 -> cycle s' = 0.
Proof.
  intros Hinv Hs He'. destruct e as [|rgb|]; cbn [step] in Hs.
  - destruct (full s =? 0); [discriminate|]. inversion Hs; subst.
    cbn in He'. discriminate.
  - destruct (full s =? 0); [|discriminate]. inversion Hs; subst.
    apply Hinv. exact He'.
  - inversion Hs; subst. clear Hs.
    destruct (Z.eq_dec (enable_consumer s) 0) as [He|He].
    { rewrite ISR_disabled in * by exact He. apply Hinv. exact He. }
    destruct (Z_lt_le_dec (wrap8 (cycle s + 1)) (threshold s)) as [Hlt|Hge].
    { rewrite ISR_waiting in He' by assumption. cbn in He'. contradiction. }
    destruct (empty_cases s) as [Hne|Hem].
    + rewrite ISR_drain in He' by assumption. cbn in He'. contradiction.
    + rewrite ISR_underrun by assumption. reflexivity.
Qed.

Lemma idle_cycle_run (es : list Event) :
  forall s s' : State,
    (enable_consumer s = 0 -> cycle s = 0) ->
    run_events es s = Some s' ->
    enable_consumer s' = 0 -> cycle s' = 0.
Proof.
  induction es as [|e es IH]; intros s s' Hinv Hr; cbn [run_events] in Hr.
  - inversion Hr; subst. exact Hinv.
  - destruct (step e s) as [s1|] eqn:Hs; [|discriminate].
    exact (IH s1 s' (idle_cycle_step e s s1 Hinv Hs) Hr).
Qed.

(** From a fresh counter the consumer keeps to its period. *)
Lemma schedule_from_fresh_cycle (s : State) :
  enable_consumer s <> 0 -> empty s = 0 -> cycle s = 0 ->
  1 <= threshold s <= 255 ->
  drains_on_schedule s.
Proof.
  intros He Hne Hc HT. split.
  - intros k Hk Hlt. split.
    + apply dequeue_at_None, report_waiting; try assumption; lia.
    + rewrite ticks_waiting by (try assumption; lia). reflexivity.
  - destruct (ticks_period s He Hc Hne HT) as [Hs Hr].
    unfold dequeue_at. rewrite Hr, Hs. repeat split.
Qed.

(** X1: in every state the program reaches from reset, [cycle] is 0
    whenever [enable_consumer] is 0.  So when the producer finds the
    buffer full and stores 1 into [enable_consumer], the consumer waits a
    whole period: with [consume_every + consume_every_modifier] in
    [1, 255], no tick before that number dequeues and the tick of that
    number dequeues exactly one record. *)
Theorem disabled_consumer_starts_fresh (es : list Event) (s : State) :
  run_events es initial_state = Some s -> enable_consumer s = 0 ->
  cycle s = 0 /\
  (full s = 1 -> 1 <= threshold s <= 255 ->
   drains_on_schedule (set_enable_consumer 1 s)).
Proof.
  intros Hr He.
  assert (Hc : cycle s = 0).
  { apply (idle_cycle_run es initial_state s); [reflexivity | exact Hr | exact He]. }
  split; [exact Hc|]. intros Hf HT.
  apply schedule_from_fresh_cycle.
  - cbn. discriminate.
  - destruct (empty_cases s) as [H|H]; [exact H|].
    exfalso. apply (full_empty_exclusive s). split; assumption.
  - exact Hc.
  - exact HT.
Qed.

Lemma disabled_consumer_starts_fresh_witness :
  run_events (map EvEnqueue (replicate 127 rgb_zero)) initial_state
    = Some filled_at_reset /\
  enable_consumer filled_at_reset = 0 /\
  cycle filled_at_reset = 0 /\
  full filled_at_reset = 1 /\ 1 <= threshold filled_at_reset <= 255 /\
  drains_on_schedule (set_enable_consumer 1 filled_at_reset).
Proof.
  assert (Hr : run_events (map EvEnqueue (replicate 127 rgb_zero))
                 initial_state = Some filled_at_reset)
    by (vm_compute; reflexivity).
  assert (He : enable_consumer filled_at_reset = 0)
    by (vm_compute; reflexivity).
  assert (Hf : full filled_at_reset = 1) by (vm_compute; reflexivity).
  assert (HT : 1 <= threshold filled_at_reset <= 255)
    by (vm_compute; split; discriminate).
  pose proof (disabled_consumer_starts_fresh _ filled_at_reset Hr He)
    as [Hc Hd].
  exact (conj Hr (conj He (conj Hc (conj Hf (conj HT (Hd Hf HT)))))).
Defined.

(** X11: what the [>=] of the comparison gives.  With the consumer
    enabled, when [cycle + 1] is at or above
    [consume_every + consume_every_modifier], in particular strictly above
    it as after the modifier has been lowered, the very next tick is a
    drain attempt: it leaves [cycle] at 0 and either dequeues the oldest
    record and sends its [Consumed] line, or, on an empty buffer, sends
    the [QueueEmpty] line. *)
Theorem at_or_above_threshold_drains_next_tick (s : State) :
  enable_consumer s <> 0 -> 0 <= cycle s < 255 ->
  threshold s <= cycle s + 1 ->
  cycle (fst (ISR_TIMER0_OVF s)) = 0 /\
  (empty s = 0 ->
   snd (ISR_TIMER0_OVF s) = Some (Consumed (slot s (head s)) (threshold s)) /\
   head (fst (ISR_TIMER0_OVF s)) = (head s + 1) mod NELEMS_queue) /\
  (empty s = 1 ->
   snd (ISR_TIMER0_OVF s)
     = Some (QueueEmpty (wrap8 (consume_every s + 1))) /\
   head (fst (ISR_TIMER0_OVF s)) = head s).
Proof.
  intros He Hc HT.
  assert (Hge : threshold s <= wrap8 (cycle s + 1))
    by (rewrite wrap8_small; lia).
  split; [apply ISR_attempt; assumption|]. split.
  - intros Hne. rewrite ISR_drain by assumption. split; [reflexivity|].
    cbn [fst head set_head]. apply wrap8_small.
    pose proof (Z.mod_pos_bound (head s + 1) NELEMS_queue
                  ltac:(unfold NELEMS_queue; lia)).
    unfold NELEMS_queue in *. lia.
  - intros Hem. rewrite ISR_underrun by assumption. split; reflexivity.
Qed.

Lemma at_or_above_threshold_drains_next_tick_witness :
  enable_consumer lowered_modifier <> 0 /\
  0 <= cycle lowered_modifier < 255 /\
  threshold lowered_modifier <= cycle lowered_modifier + 1 /\
  threshold lowered_modifier = 3 /\ cycle lowered_modifier = 200 /\
  empty lowered_modifier = 0 /\
  cycle (fst (ISR_TIMER0_OVF lowered_modifier)) = 0 /\
  snd (ISR_TIMER0_OVF lowered_modifier)
    = Some (Consumed (slot lowered_modifier (head lowered_modifier))
              (threshold lowered_modifier)) /\
  head (fst (ISR_TIMER0_OVF lowered_modifier))
    = (head lowered_modifier + 1) mod NELEMS_queue.
Proof.
  assert (He : enable_consumer lowered_modifier <> 0) by discriminate.
  assert (Hc : 0 <= cycle lowered_modifier < 255)
    by (vm_compute; split; [discriminate | reflexivity]).
  assert (HT : threshold lowered_modifier <= cycle lowered_modifier + 1)
    by (vm_compute; discriminate).
  pose proof (at_or_above_threshold_drains_next_tick lowered_modifier
                He Hc HT) as (H1 & H2 & _).
  exact (conj He (conj Hc (conj HT (conj eq_refl (conj eq_refl
           (conj eq_refl (conj H1 (H2 eq_refl)))))))).
Defined.

End FreshPeriod.
